(** * Conway's Game of Life on a torus: a model of [game_of_life.py]

    The development embeds the grid model of the program: the singleton
    configuration object [GameConfig], the numpy array held by
    [GameState.state], the neighbour count [_count_neighbors] and the
    transition [next_generation].  Arrays are objects on a heap, so that the
    copy made by [np.copy] and the in-place writes into it are distinct from
    the array that is being read. *)

From Stdlib Require Import ZArith Lia List Bool String.
From stdpp Require Import base numbers list.
Import ListNotations.

Local Open Scope Z_scope.

(** ** Exceptions and the state-and-exception monad *)

(** The Python exceptions the modelled code can raise.  [InvalidRef] is not a
    Python exception: it marks a reference that points outside the heap of
    the model, which the program never produces. *)
Inductive exn : Type :=
| IndexError
| ZeroDivisionError
| ValueError
| Exception (msg : string)
| InvalidRef.

Inductive result (A : Type) : Type :=
| Ok (a : A)
| Raise (e : exn).
Arguments Ok {A} a.
Arguments Raise {A} e.

(** A computation over a store [S]: an exception does not roll the store
    back, as in Python. *)
Definition M (S A : Type) : Type := S -> result A * S.

Definition ret {S A} (a : A) : M S A := fun s => (Ok a, s).

Definition bind {S A B} (m : M S A) (k : A -> M S B) : M S B :=
  fun s => match m s with
           | (Ok a, s') => k a s'
           | (Raise e, s') => (Raise e, s')
           end.

Definition raise {S A} (e : exn) : M S A := fun s => (Raise e, s).

Definition lift {S A} (r : result A) : M S A := fun s => (r, s).

Declare Scope monad_scope.
Delimit Scope monad_scope with monad.
Notation "'let*' x ':=' m 'in' k" := (bind m (fun x => k))
  (at level 10, x name, m at level 100, k at level 200) : monad_scope.
Local Open Scope monad_scope.

(** [[f(v) for v in xs]]: the elements are evaluated from left to right. *)
Fixpoint mapM {S A B} (f : A -> M S B) (xs : list A) : M S (list B) :=
  match xs with
  | [] => ret []
  | x :: xs' => let* v := f x in let* vs := mapM f xs' in ret (v :: vs)
  end.

(** [for v in xs: body(v)] *)
Fixpoint for_each {S A} (xs : list A) (body : A -> M S unit) : M S unit :=
  match xs with
  | [] => ret tt
  | x :: xs' => let* _ := body x in for_each xs' body
  end.

(** ** Python integers *)

(** [a % b] and [a // b] on Python integers: floor division, the remainder
    has the sign of the divisor, and a zero divisor raises. *)
Definition py_mod (a b : Z) : result Z :=
  if b =? 0 then Raise ZeroDivisionError else Ok (a mod b).

Definition py_floordiv (a b : Z) : result Z :=
  if b =? 0 then Raise ZeroDivisionError else Ok (a / b).

(** [range(n)] *)
Definition range (n : Z) : list Z := seqZ 0 n.

(** ** numpy arrays *)

(** The array [np.random.choice] draws from [[0, 1]] holds 64-bit integers,
    and a read [a[i, j]] returns an [np.int64] scalar.  Addition of two such
    scalars wraps around. *)
Definition wrap64 (z : Z) : Z := (z + 2 ^ 63) mod 2 ^ 64 - 2 ^ 63.

Definition add64 (a b : Z) : Z := wrap64 (a + b).

(** The builtin [sum] over a list of [np.int64] scalars: starts from [0] and
    adds from left to right. *)
Definition py_sum (vals : list Z) : Z := fold_left add64 vals 0.

(** A two-dimensional integer array: its shape and its cells, [rows a] being
    indexed by the first axis. *)
Record ndarray : Type := mk_ndarray {
  dim0 : nat;
  dim1 : nat;
  rows : list (list Z)
}.

Definition shape (a : ndarray) : nat * nat := (dim0 a, dim1 a).

(** An index along an axis of length [n]: numpy counts a negative index from
    the end and raises [IndexError] outside [-n, n). *)
Definition norm_index (n : nat) (i : Z) : result nat :=
  if (0 <=? i) && (i <? Z.of_nat n) then Ok (Z.to_nat i)
  else if (- Z.of_nat n <=? i) && (i <? 0) then Ok (Z.to_nat (i + Z.of_nat n))
  else Raise IndexError.

(** [a[i, j]] *)
Definition arr_get (a : ndarray) (i j : Z) : result Z :=
  match norm_index (dim0 a) i with
  | Raise e => Raise e
  | Ok x =>
    match norm_index (dim1 a) j with
    | Raise e => Raise e
    | Ok y =>
      match rows a !! x with
      | None => Raise IndexError
      | Some r => match r !! y with
                  | None => Raise IndexError
                  | Some v => Ok v
                  end
      end
    end
  end.

(** [a[i, j] = v] on the array value *)
Definition arr_set (a : ndarray) (i j : Z) (v : Z) : result ndarray :=
  match norm_index (dim0 a) i with
  | Raise e => Raise e
  | Ok x =>
    match norm_index (dim1 a) j with
    | Raise e => Raise e
    | Ok y =>
      match rows a !! x with
      | None => Raise IndexError
      | Some r =>
        if (y <? length r)%nat
        then Ok (mk_ndarray (dim0 a) (dim1 a) (<[x := <[y := v]> r]> (rows a)))
        else Raise IndexError
      end
    end
  end.

(** The array of shape [(w, h)] whose cell [(x, y)] is [f x y]. *)
Definition tabulate (w h : nat) (f : Z -> Z -> Z) : ndarray :=
  mk_ndarray w h
    ((fun x => (fun y => f x y) <$> seqZ 0 (Z.of_nat h)) <$> seqZ 0 (Z.of_nat w)).

(** ** The heap of array objects *)

Abbreviation loc := nat (only parsing).
Abbreviation heap := (list ndarray) (only parsing).

Definition load (l : loc) : M heap ndarray :=
  fun h => match h !! l with
           | Some a => (Ok a, h)
           | None => (Raise InvalidRef, h)
           end.

Definition store (l : loc) (a : ndarray) : M heap unit :=
  fun h => match h !! l with
           | Some _ => (Ok tt, <[l := a]> h)
           | None => (Raise InvalidRef, h)
           end.

Definition alloc (a : ndarray) : M heap loc :=
  fun h => (Ok (length h), h ++ [a]).

(** [np.copy(a)]: a new array object with the same shape and cells. *)
Definition np_copy (l : loc) : M heap loc :=
  let* a := load l in alloc a.

(** [a[i, j]] and [a[i, j] = v] on an array object *)
Definition ndarray_getitem (l : loc) (i j : Z) : M heap Z :=
  let* a := load l in lift (arr_get a i j).

Definition ndarray_setitem (l : loc) (i j : Z) (v : Z) : M heap unit :=
  let* a := load l in
  let* a' := lift (arr_set a i j v) in
  store l a'.

(** ** The configuration *)

(** The attributes of the configuration object. *)
Record GameConfig : Type := mk_GameConfig {
  width : Z;
  height : Z;
  n_cells_x : Z;
  n_cells_y : Z;
  cell_width : Z;
  cell_height : Z
}.

Module Singleton.

(** The class attribute [GameConfig._instance] and the objects of the
    class.  An object is created without attributes ([None]) and gets them
    all in the [else] branch of [__init__]. *)
Record ClassState : Type := mk_ClassState {
  _instance : option loc;
  objects : list (option GameConfig)
}.

Definition singleton_msg : string := "This class is a singleton!".

(** [GameConfig.__init__(self)] *)
Definition __init__ (self : loc) : M ClassState unit :=
  fun c =>
    match _instance c with
    | Some _ => (Raise (Exception singleton_msg), c)
    | None =>
      let width := 800 in
      let height := 600 in
      let n_cells_x := 40 in
      let n_cells_y := 30 in
      match py_floordiv width n_cells_x with
      | Raise e => (Raise e, c)
      | Ok cell_width =>
        match py_floordiv height n_cells_y with
        | Raise e => (Raise e, c)
        | Ok cell_height =>
          (Ok tt,
           mk_ClassState (Some self)
             (<[self := Some (mk_GameConfig width height n_cells_x n_cells_y
                                cell_width cell_height)]> (objects c)))
        end
      end
    end.

(** The call [GameConfig()]: a new object is allocated and [__init__] runs
    on it; the call returns the object unless [__init__] raises. *)
Definition GameConfig_call : M ClassState loc :=
  fun c =>
    let self := length (objects c) in
    match __init__ self (mk_ClassState (_instance c) (objects c ++ [None])) with
    | (Ok _, c') => (Ok self, c')
    | (Raise e, c') => (Raise e, c')
    end.

(** [GameConfig.get_instance()] *)
Definition get_instance : M ClassState (option loc) :=
  fun c =>
    match (match _instance c with
           | None => let* _ := GameConfig_call in ret tt
           | Some _ => ret tt
           end) c with
    | (Ok _, c') => (Ok (_instance c'), c')
    | (Raise e, c') => (Raise e, c')
    end.

(** The class before any instance exists. *)
Definition class_init : ClassState := mk_ClassState None [].

(** The attributes of the object a reference points to. *)
Definition attrs (c : ClassState) (l : loc) : option GameConfig :=
  match objects c !! l with
  | Some (Some g) => Some g
  | _ => None
  end.

End Singleton.

(** [config = GameConfig.get_instance()] at import time: the attributes of
    the one instance. *)
Definition config : GameConfig :=
  Eval cbv in
    match Singleton.get_instance Singleton.class_init with
    | (Ok (Some l), c) =>
      match Singleton.attrs c l with
      | Some g => g
      | None => mk_GameConfig 0 0 0 0 0 0
      end
    | _ => mk_GameConfig 0 0 0 0 0 0
    end.

(** ** The game state *)

(** The object of class [GameState]: its attribute [state] refers to an
    array object. *)
Record GameState : Type := mk_GameState { state : loc }.

(** [np.random.choice(pool, size=size, p=...)]: a new array of the given
    shape whose cells are drawn from [pool]; a negative dimension raises
    [ValueError].  The probabilities only weigh the draws: the outcome of the
    random generator is the argument [draw], the position in [pool] drawn for
    each cell. *)
Definition np_random_choice (pool : list Z) (size : Z * Z) (draw : Z -> Z -> nat)
  : M heap loc :=
  if (fst size <? 0) || (snd size <? 0) then raise ValueError
  else alloc (tabulate (Z.to_nat (fst size)) (Z.to_nat (snd size))
                (fun x y => nth (draw x y mod length pool)%nat pool 0)).

(** [[(i, j) for i in [-1, 0, 1] for j in [-1, 0, 1] if not (i == 0 and j == 0)]] *)
Definition offsets : list (Z * Z) :=
  flat_map (fun i =>
    flat_map (fun j => if negb ((i =? 0) && (j =? 0)) then [(i, j)] else [])
      [-1; 0; 1])
    [-1; 0; 1].

Section Game.

(** The global [config] the methods of [GameState] read. *)
Variable cfg : GameConfig.

(** [GameState.__init__] *)
Definition GameState_init (draw : Z -> Z -> nat) : M heap GameState :=
  let* a := np_random_choice [0; 1] (n_cells_x cfg, n_cells_y cfg) draw in
  ret (mk_GameState a).

(** The index [((x + i) % config.n_cells_x, (y + j) % config.n_cells_y)]
    of the neighbour at offset [o = (i, j)]. *)
Definition neighbor_index (x y : Z) (o : Z * Z) : result (Z * Z) :=
  match py_mod (x + fst o) (n_cells_x cfg) with
  | Raise e => Raise e
  | Ok a =>
    match py_mod (y + snd o) (n_cells_y cfg) with
    | Raise e => Raise e
    | Ok b => Ok (a, b)
    end
  end.

(** [GameState._count_neighbors] *)
Definition _count_neighbors (self : GameState) (x y : Z) : M heap Z :=
  let* vals :=
    mapM (fun o =>
            let* ab := lift (neighbor_index x y o) in
            ndarray_getitem (state self) (fst ab) (snd ab))
         offsets in
  ret (py_sum vals).

(** The body of the two loops of [next_generation] at the cell [(x, y)]:
    it reads [self.state] and writes [new_state]. *)
Definition update_cell (self : GameState) (new_state : loc) (x y : Z)
  : M heap unit :=
  let* n_neighbors := _count_neighbors self x y in
  let* c := ndarray_getitem (state self) x y in
  if (c =? 1) && ((n_neighbors <? 2) || (n_neighbors >? 3))
  then ndarray_setitem new_state x y 0
  else
    let* c' := ndarray_getitem (state self) x y in
    if (c' =? 0) && (n_neighbors =? 3)
    then ndarray_setitem new_state x y 1
    else ret tt.

(** [GameState.next_generation]: the result is the object [self] after the
    assignment [self.state = new_state]. *)
Definition next_generation (self : GameState) : M heap GameState :=
  let* new_state := np_copy (state self) in
  let* _ :=
    for_each (range (n_cells_y cfg)) (fun y =>
      for_each (range (n_cells_x cfg)) (fun x =>
        update_cell self new_state x y)) in
  ret (mk_GameState new_state).

(** [n] presses of the button: [NextGenerationStrategy.execute] calls
    [next_generation] once per press. *)
Fixpoint advance (n : nat) (self : GameState) : M heap GameState :=
  match n with
  | O => ret self
  | S n' => let* self' := next_generation self in advance n' self'
  end.

End Game.

(** ** Well-formed grids *)

(** The cells of an array agree with its shape. *)
Definition wf_array (a : ndarray) : Prop :=
  length (rows a) = dim0 a /\ Forall (fun r => length r = dim1 a) (rows a).

(** Every cell is DEAD (0) or ALIVE (1). *)
Definition binary (a : ndarray) : Prop :=
  Forall (Forall (fun v => v = 0 \/ v = 1)) (rows a).

(** The array has the shape the configuration gives. *)
Definition fits (cfg : GameConfig) (a : ndarray) : Prop :=
  wf_array a /\ Z.of_nat (dim0 a) = n_cells_x cfg /\ Z.of_nat (dim1 a) = n_cells_y cfg.

#[global] Instance wf_array_dec a : Decision (wf_array a).
Proof. unfold wf_array. apply _. Defined.

#[global] Instance binary_dec a : Decision (binary a).
Proof. unfold binary. apply _. Defined.

#[global] Instance fits_dec cfg a : Decision (fits cfg a).
Proof. unfold fits. apply _. Defined.

(** The value of a cell, for an index inside the array. *)
Definition cell (a : ndarray) (x y : Z) : Z :=
  match arr_get a x y with
  | Ok v => v
  | Raise _ => 0
  end.

(** ** The transition as a function on array values *)

(** What the two branches of the loop body leave in a cell whose state is
    [c] and whose neighbour count is [n]. *)
Definition transition (c n : Z) : Z :=
  if (c =? 1) && ((n <? 2) || (n >? 3)) then 0
  else if (c =? 0) && (n =? 3) then 1
  else c.

(** The cells [_count_neighbors] reads around [(x, y)], in the order of the
    reads, and their sum. *)
Definition neighbor_cells (cfg : GameConfig) (a : ndarray) (x y : Z) : list Z :=
  (fun o => cell a ((x + fst o) mod n_cells_x cfg) ((y + snd o) mod n_cells_y cfg))
    <$> offsets.

Definition neighbor_sum (cfg : GameConfig) (a : ndarray) (x y : Z) : Z :=
  py_sum (neighbor_cells cfg a x y).

(** The array [next_generation] leaves in [new_state]. *)
Definition next_array (cfg : GameConfig) (a : ndarray) : ndarray :=
  tabulate (dim0 a) (dim1 a)
    (fun x y => transition (cell a x y) (neighbor_sum cfg a x y)).

(** The invariant of the two loops of [next_generation]: the prior
    generation [a] is still at its place in the heap [h0], the array under
    construction is the one object allocated after it, and holds the new
    state of every cell in [D] and the new or the prior state of every other
    cell. *)
Definition loop_inv (cfg : GameConfig) (h0 : heap) (a : ndarray)
           (D : Z -> Z -> Prop) (h : heap) : Prop :=
  exists b,
    h = h0 ++ [b] /\ fits cfg b /\
    forall x y, 0 <= x < n_cells_x cfg -> 0 <= y < n_cells_y cfg ->
      (D x y -> cell b x y = transition (cell a x y) (neighbor_sum cfg a x y)) /\
      (cell b x y = transition (cell a x y) (neighbor_sum cfg a x y) \/
       cell b x y = cell a x y).

(** ** The reference transition

    The transition as the specification words it, on two buffers: every cell
    of the new grid is computed from the prior grid alone.  ALIVE is 1 and
    DEAD is 0. *)

Definition ALIVE : Z := 1.
Definition DEAD : Z := 0.

(** The number of ALIVE cells among the eight Moore neighbours of [(x, y)]
    on the torus of [w] by [h] cells. *)
Definition live_neighbors (w h : Z) (a : ndarray) (x y : Z) : Z :=
  cell a ((x - 1) mod w) ((y - 1) mod h) + cell a ((x - 1) mod w) (y mod h)
  + cell a ((x - 1) mod w) ((y + 1) mod h)
  + cell a (x mod w) ((y - 1) mod h) + cell a (x mod w) ((y + 1) mod h)
  + cell a ((x + 1) mod w) ((y - 1) mod h) + cell a ((x + 1) mod w) (y mod h)
  + cell a ((x + 1) mod w) ((y + 1) mod h).

Definition standard_rule (c n : Z) : Z :=
  if (c =? ALIVE) && ((n <? 2) || (3 <? n)) then DEAD
  else if (c =? DEAD) && (n =? 3) then ALIVE
  else c.

Definition reference_step (a : ndarray) : ndarray :=
  tabulate (dim0 a) (dim1 a)
    (fun x y =>
       standard_rule (cell a x y)
         (live_neighbors (Z.of_nat (dim0 a)) (Z.of_nat (dim1 a)) a x y)).

(** ** Patterns *)

(** A glider in the corner of the 40 by 30 grid of the program. *)
Definition glider : ndarray :=
  tabulate 40 30
    (fun x y =>
       if ((x =? 1) && (y =? 0)) || ((x =? 2) && (y =? 1)) || ((x <=? 2) && (y =? 2))
       then ALIVE else DEAD).

(** The only ALIVE cells are the two ends of the row [y = 5], on opposite
    edges of the 40 by 30 grid. *)
Definition opposite_edges : ndarray :=
  tabulate 40 30
    (fun x y => if ((x =? 0) || (x =? 39)) && (y =? 5) then ALIVE else DEAD).

(** The horizontal blinker centred on [(cx, cy)]: the three cells of the row
    [cy] in the columns [cx - 1], [cx] and [cx + 1] of the torus are ALIVE,
    every other cell is DEAD.  The first index [x] of the array is the
    column on the screen: [draw_cells] paints the cell [(x, y)] at
    [(x * cell_width, y * cell_height)]. *)
Definition blinker_horizontal (cfg : GameConfig) (cx cy : Z) : ndarray :=
  tabulate (Z.to_nat (n_cells_x cfg)) (Z.to_nat (n_cells_y cfg))
    (fun x y =>
       if (y =? cy) && ((x =? (cx - 1) mod n_cells_x cfg) || (x =? cx)
                        || (x =? (cx + 1) mod n_cells_x cfg))
       then ALIVE else DEAD).

(** The vertical blinker centred on [(cx, cy)]. *)
Definition blinker_vertical (cfg : GameConfig) (cx cy : Z) : ndarray :=
  tabulate (Z.to_nat (n_cells_x cfg)) (Z.to_nat (n_cells_y cfg))
    (fun x y =>
       if (x =? cx) && ((y =? (cy - 1) mod n_cells_y cfg) || (y =? cy)
                        || (y =? (cy + 1) mod n_cells_y cfg))
       then ALIVE else DEAD).

(** The 2 by 2 block whose corner is [(px, py)]: the cells in the columns
    [px] and [px + 1] and the rows [py] and [py + 1] of the torus are ALIVE,
    every other cell is DEAD. *)
Definition block (cfg : GameConfig) (px py : Z) : ndarray :=
  tabulate (Z.to_nat (n_cells_x cfg)) (Z.to_nat (n_cells_y cfg))
    (fun x y =>
       if ((x =? px) || (x =? (px + 1) mod n_cells_x cfg))
          && ((y =? py) || (y =? (py + 1) mod n_cells_y cfg))
       then ALIVE else DEAD).

(** ** The transition on cell functions

    A grid seen as the function from a cell to its state, the reference
    transition on it, and the translation of a grid along the torus. *)

Definition moore_sum (w h : Z) (f : Z -> Z -> Z) (x y : Z) : Z :=
  f ((x - 1) mod w) ((y - 1) mod h) + f ((x - 1) mod w) (y mod h)
  + f ((x - 1) mod w) ((y + 1) mod h)
  + f (x mod w) ((y - 1) mod h) + f (x mod w) ((y + 1) mod h)
  + f ((x + 1) mod w) ((y - 1) mod h) + f ((x + 1) mod w) (y mod h)
  + f ((x + 1) mod w) ((y + 1) mod h).

Definition life (w h : Z) (f : Z -> Z -> Z) (x y : Z) : Z :=
  standard_rule (f x y) (moore_sum w h f x y).

Definition shift (w h dx dy : Z) (f : Z -> Z -> Z) (x y : Z) : Z :=
  f ((x - dx) mod w) ((y - dy) mod h).

(** The horizontal and the vertical blinker centred on [(1, 1)] and the block
    whose corner is [(0, 0)]. *)
Definition blinker_h0 (x y : Z) : Z :=
  if (y =? 1) && ((x =? 0) || (x =? 1) || (x =? 2)) then ALIVE else DEAD.

Definition blinker_v0 (x y : Z) : Z :=
  if (x =? 1) && ((y =? 0) || (y =? 1) || (y =? 2)) then ALIVE else DEAD.

Definition block0 (x y : Z) : Z :=
  if ((x =? 0) || (x =? 1)) && ((y =? 0) || (y =? 1)) then ALIVE else DEAD.

(** A configuration object whose attribute [n_cells_x] is zero. *)
Definition zero_width_config : GameConfig := mk_GameConfig 800 600 0 30 20 20.

(** ** Further grids *)

(** The grid of the configured shape whose cells are all DEAD. *)
Definition dead_grid (cfg : GameConfig) : ndarray :=
  tabulate (Z.to_nat (n_cells_x cfg)) (Z.to_nat (n_cells_y cfg)) (fun _ _ => DEAD).

(** The grid [a] moved by [dx] columns and [dy] rows around the torus: the
    cell [(x, y)] of the result is the cell [(x - dx, y - dy)] of [a]. *)
Definition roll (cfg : GameConfig) (dx dy : Z) (a : ndarray) : ndarray :=
  tabulate (dim0 a) (dim1 a)
    (shift (n_cells_x cfg) (n_cells_y cfg) dx dy (cell a)).

(** ** The presentation shell

    The classes around the grid model: the button listener, the event
    manager, the drawing adapter, the graphic components and the main loop.
    The calls the program makes on pygame are recorded, in order, in a log. *)

(** The events the program looks at.  An event of type
    [pygame.MOUSEBUTTONDOWN] carries the attribute [pos]. *)
Inductive Event : Type :=
| QUIT
| MOUSEBUTTONDOWN (pos : Z * Z)
| OtherEvent (code : Z).

#[global] Instance Event_eq_dec : EqDecision Event.
Proof. solve_decision. Defined.

Abbreviation color := (Z * Z * Z)%type (only parsing).

Definition white : color := (255, 255, 255).
Definition black : color := (0, 0, 0).
Definition gray : color := (128, 128, 128).
Definition green : color := (0, 255, 0).

(** The calls on pygame: [pygame.display.set_mode(size)], [surface.fill(c)],
    [pygame.draw.rect(surface, c, rect, line_width)] where the rectangle is
    [(left, top, width, height)] and a line width of 0 fills it, the
    rendering of a text with the default font of the given size blitted so
    that its centre is at [center], [pygame.display.flip()] and
    [pygame.quit()]. *)
Inductive pygame_call : Type :=
| set_mode (size : Z * Z)
| fill (surface : nat) (c : Z * Z * Z)
| draw_rect (surface : nat) (c : Z * Z * Z) (rect : Z * Z * Z * Z) (line_width : Z)
| blit_text (surface : nat) (text : string) (font_size : Z) (c : Z * Z * Z)
            (center : Z * Z)
| display_flip
| pygame_quit.

(** The store of the program: the array objects, the [GameState] objects
    and the log of the calls on pygame, the oldest first. *)
Record World : Type := mk_World {
  arrays : list ndarray;
  game_states : list GameState;
  calls : list pygame_call
}.

(** A computation on the arrays, run in the store of the program. *)
Definition on_arrays {A} (m : M heap A) : M World A :=
  fun w => match m (arrays w) with
           | (r, h') => (r, mk_World h' (game_states w) (calls w))
           end.

(** One call on pygame. *)
Definition call (c : pygame_call) : M World unit :=
  fun w => (Ok tt, mk_World (arrays w) (game_states w) (calls w ++ [c])).

(** The display surface [pygame.display.set_mode] returns. *)
Definition display : nat := 0%nat.

(** [range(start, stop, step)]: a step of zero raises [ValueError]. *)
Definition py_range3 (start stop step : Z) : result (list Z) :=
  if step =? 0 then Raise ValueError
  else if 0 <? step
       then Ok ((fun k => start + k * step)
                  <$> seqZ 0 ((stop - start + step - 1) / step))
       else Ok ((fun k => start + k * step)
                  <$> seqZ 0 ((start - stop - step - 1) / (- step))).

(** [list.remove(x)]: the first element equal to [x] is removed, and
    [ValueError] is raised when there is none. *)
Fixpoint list_remove {A} `{EqDecision A} (x : A) (l : list A) : result (list A) :=
  match l with
  | [] => Raise ValueError
  | y :: l' =>
    if decide (y = x) then Ok l'
    else match list_remove x l' with
         | Ok r => Ok (y :: r)
         | Raise e => Raise e
         end
  end.

(** [GameState()]: a new object, whose grid is drawn at random. *)
Definition new_GameState (cfg : GameConfig) (draw : Z -> Z -> nat) : M World nat :=
  fun w => match GameState_init cfg draw (arrays w) with
           | (Ok self, h') =>
             (Ok (length (game_states w)),
              mk_World h' (game_states w ++ [self]) (calls w))
           | (Raise e, h') => (Raise e, mk_World h' (game_states w) (calls w))
           end.

(** [game_state.next_generation()] on the object [game_state]: the
    attribute [state] of the object is assigned when the method ends. *)
Definition call_next_generation (cfg : GameConfig) (game_state : nat) : M World unit :=
  fun w => match game_states w !! game_state with
           | None => (Raise InvalidRef, w)
           | Some self =>
             match next_generation cfg self (arrays w) with
             | (Ok self', h') =>
               (Ok tt, mk_World h' (<[game_state := self']> (game_states w)) (calls w))
             | (Raise e, h') => (Raise e, mk_World h' (game_states w) (calls w))
             end
           end.

(** [game_state.state] *)
Definition get_state (game_state : nat) : M World loc :=
  fun w => match game_states w !! game_state with
           | None => (Raise InvalidRef, w)
           | Some self => (Ok (state self), w)
           end.

(** The button: [button_width, button_height = 200, 50] and
    [button_x, button_y = (config.width - button_width) // 2,
     config.height - button_height - 10]. *)
Definition button_width : Z := 200.
Definition button_height : Z := 50.
Definition button_x (cfg : GameConfig) : Z := (width cfg - button_width) / 2.
Definition button_y (cfg : GameConfig) : Z := height cfg - button_height - 10.

Module NextGenerationStrategy.

Record t : Type := mk { game_state : nat }.

Definition execute (cfg : GameConfig) (self : t) : M World unit :=
  call_next_generation cfg (game_state self).

End NextGenerationStrategy.

Module ButtonAction.

Record t : Type := mk { strategy : NextGenerationStrategy.t }.

Definition update (cfg : GameConfig) (self : t) (event : Event) : M World unit :=
  match event with
  | MOUSEBUTTONDOWN (x, y) =>
    if (button_x cfg <=? x) && (x <=? button_x cfg + button_width)
       && (button_y cfg <=? y) && (y <=? button_y cfg + button_height)
    then NextGenerationStrategy.execute cfg (strategy self)
    else ret tt
  | _ => ret tt
  end.

End ButtonAction.

Module EventManager.

Record t : Type := mk { listeners : list ButtonAction.t }.

(** [EventManager()] *)
Definition new : t := mk [].

(** [register]: the object after the call. *)
Definition register (self : t) (listener : ButtonAction.t) : t :=
  mk (listeners self ++ [listener]).

Definition notify (cfg : GameConfig) (self : t) (event : Event) : M World unit :=
  for_each (listeners self) (fun listener => ButtonAction.update cfg listener event).

End EventManager.

Module PygameAdapter.

Record t : Type := mk { screen : nat }.

Definition draw_button (self : t) (button_x button_y button_width button_height : Z)
  : M World unit :=
  let* _ := call (draw_rect (screen self) green
                    (button_x, button_y, button_width, button_height) 0) in
  call (blit_text (screen self) "Next Generation" 36 black
          (button_x + button_width / 2, button_y + button_height / 2)).

Definition draw_grid (self : t) (cell_width cell_height width height : Z)
  : M World unit :=
  let* ys := lift (py_range3 0 height cell_height) in
  for_each ys (fun y =>
    let* xs := lift (py_range3 0 width cell_width) in
    for_each xs (fun x =>
      call (draw_rect (screen self) gray (x, y, cell_width, cell_height) 1))).

(** [draw_cells]: the argument [game_state] is the array. *)
Definition draw_cells (cfg : GameConfig) (self : t) (game_state : loc)
           (cell_width cell_height : Z) : M World unit :=
  for_each (range (n_cells_y cfg)) (fun y =>
    for_each (range (n_cells_x cfg)) (fun x =>
      let* c := on_arrays (ndarray_getitem game_state x y) in
      if c =? 1
      then call (draw_rect (screen self) black
                   (x * cell_width, y * cell_height, cell_width, cell_height) 0)
      else ret tt)).

End PygameAdapter.

(** The graphic components [Grid], [Cells] and [Button]. *)
Inductive GraphicComponent : Type :=
| Grid (adapter : PygameAdapter.t)
| Cells (adapter : PygameAdapter.t) (game_state : nat)
| Button (adapter : PygameAdapter.t).

#[global] Instance PygameAdapter_eq_dec : EqDecision PygameAdapter.t.
Proof. solve_decision. Defined.

#[global] Instance GraphicComponent_eq_dec : EqDecision GraphicComponent.
Proof. solve_decision. Defined.

(** The method [draw] of the three classes. *)
Definition draw_component (cfg : GameConfig) (c : GraphicComponent) : M World unit :=
  match c with
  | Grid adapter =>
    PygameAdapter.draw_grid adapter (cell_width cfg) (cell_height cfg)
                            (width cfg) (height cfg)
  | Cells adapter game_state =>
    let* a := get_state game_state in
    PygameAdapter.draw_cells cfg adapter a (cell_width cfg) (cell_height cfg)
  | Button adapter =>
    PygameAdapter.draw_button adapter (button_x cfg) (button_y cfg)
                              button_width button_height
  end.

Module CompositeGraphic.

(** The children are values of a type [A] with the method [draw]; the
    equality of [A] stands for [==] on the objects. *)
Record t (A : Type) : Type := mk { children : list A }.
Arguments mk {A} children.
Arguments children {A} _.

Definition new {A} : t A := mk [].

Definition add {A} (self : t A) (component : A) : t A :=
  mk (children self ++ [component]).

Definition remove {A} `{EqDecision A} (self : t A) (component : A) : result (t A) :=
  match list_remove component (children self) with
  | Ok l => Ok (mk l)
  | Raise e => Raise e
  end.

Definition draw {A} (draw_child : A -> M World unit) (self : t A) : M World unit :=
  for_each (children self) draw_child.

End CompositeGraphic.

Module Game.

Record t : Type := mk {
  graphic : CompositeGraphic.t GraphicComponent;
  event_manager : EventManager.t;
  screen : nat
}.

(** The [for] loop over the events of one frame: the value of [running]
    after it. *)
Fixpoint handle_events (cfg : GameConfig) (self : t) (events : list Event)
         (running : bool) : M World bool :=
  match events with
  | [] => ret running
  | event :: later =>
    let running := match event with QUIT => false | _ => running end in
    let* _ := EventManager.notify cfg (event_manager self) event in
    handle_events cfg self later running
  end.

(** [run]: the [i]-th element of [frames] is what the [i]-th call of
    [pygame.event.get()] returns.  The result is [true] when the loop has
    ended and [pygame.quit()] was called, [false] when the frames are used up
    and the loop is still running. *)
Fixpoint run (cfg : GameConfig) (self : t) (frames : list (list Event)) : M World bool :=
  match frames with
  | [] => ret false
  | events :: later =>
    let* _ := call (fill (screen self) white) in
    let* _ := CompositeGraphic.draw (draw_component cfg) (graphic self) in
    let* _ := call display_flip in
    let* running := handle_events cfg self events true in
    if running then run cfg self later
    else let* _ := call pygame_quit in ret true
  end.

End Game.

Module GameBuilder.

Record t : Type := mk {
  screen : nat;
  game_state : nat;
  event_manager : EventManager.t;
  graphic : CompositeGraphic.t GraphicComponent
}.

(** [GameBuilder()] *)
Definition new (cfg : GameConfig) (draw : Z -> Z -> nat) : M World t :=
  let* _ := call (set_mode (width cfg, height cfg)) in
  let* game_state := new_GameState cfg draw in
  ret (mk display game_state EventManager.new CompositeGraphic.new).

(** [build]: the game, and the builder after the call. *)
Definition build (self : t) : Game.t * t :=
  let adapter := PygameAdapter.mk (screen self) in
  let next_gen_strategy := NextGenerationStrategy.mk (game_state self) in
  let button_action := ButtonAction.mk next_gen_strategy in
  let event_manager := EventManager.register (event_manager self) button_action in
  let grid := Grid adapter in
  let cells := Cells adapter (game_state self) in
  let button := Button adapter in
  let graphic :=
    CompositeGraphic.add
      (CompositeGraphic.add (CompositeGraphic.add (graphic self) grid) cells)
      button in
  (Game.mk graphic event_manager (screen self),
   mk (screen self) (game_state self) event_manager graphic).

End GameBuilder.

(** The program: [game_builder = GameBuilder()], [game = game_builder.build()]
    and [game.run()]. *)
Definition main (cfg : GameConfig) (draw : Z -> Z -> nat) (frames : list (list Event))
  : M World bool :=
  let* game_builder := GameBuilder.new cfg draw in
  Game.run cfg (fst (GameBuilder.build game_builder)) frames.

Definition world_init : World := mk_World [] [] [].

(** ** Descriptions of what the shell does *)

(** The [GameState] object [g] of the store holds the grid [a]. *)
Definition grid_of (w : World) (g : nat) (a : ndarray) : Prop :=
  exists self, game_states w !! g = Some self /\ arrays w !! state self = Some a.

(** The event is a press of the mouse button on the button: inside the
    rectangle of the button, its four edges included. *)
Definition is_click (cfg : GameConfig) (event : Event) : bool :=
  match event with
  | MOUSEBUTTONDOWN (x, y) =>
    bool_decide (button_x cfg <= x <= button_x cfg + button_width /\
                 button_y cfg <= y <= button_y cfg + button_height)
  | _ => false
  end.

Definition clicks (cfg : GameConfig) (events : list Event) : nat :=
  length (filter (fun event => is_click cfg event = true) events).

(** The filled rectangles of the ALIVE cells of [a], row after row. *)
Definition cell_rects (cfg : GameConfig) (surface : nat) (a : ndarray)
           (cell_width cell_height : Z) : list pygame_call :=
  range (n_cells_y cfg) ≫= fun y =>
  range (n_cells_x cfg) ≫= fun x =>
    if cell a x y =? 1
    then [draw_rect surface black
            (x * cell_width, y * cell_height, cell_width, cell_height) 0]
    else [].

(** The outlined rectangles of the grid lines, row after row, for a positive
    cell size. *)
Definition grid_rects (surface : nat) (cell_width cell_height width height : Z)
  : list pygame_call :=
  seqZ 0 ((height + cell_height - 1) / cell_height) ≫= fun j =>
  seqZ 0 ((width + cell_width - 1) / cell_width) ≫= fun i =>
    [draw_rect surface gray
       (i * cell_width, j * cell_height, cell_width, cell_height) 1].

Definition button_calls (cfg : GameConfig) (surface : nat) : list pygame_call :=
  [draw_rect surface green (button_x cfg, button_y cfg, button_width, button_height) 0;
   blit_text surface "Next Generation" 36 black
     (button_x cfg + button_width / 2, button_y cfg + button_height / 2)].

(** The calls of one frame that shows the grid [a]. *)
Definition frame_calls (cfg : GameConfig) (surface : nat) (a : ndarray)
  : list pygame_call :=
  [fill surface white]
  ++ grid_rects surface (cell_width cfg) (cell_height cfg) (width cfg) (height cfg)
  ++ cell_rects cfg surface a (cell_width cfg) (cell_height cfg)
  ++ button_calls cfg surface
  ++ [display_flip].

(** The calls of the frames of a run that starts with the grid [a]: every
    frame shows the grid as the clicks of the frames before it left it, and
    the frame whose events hold [QUIT] is the last. *)
Fixpoint film (cfg : GameConfig) (surface : nat) (a : ndarray)
         (frames : list (list Event)) : list pygame_call :=
  match frames with
  | [] => []
  | events :: later =>
    frame_calls cfg surface a
    ++ (if bool_decide (QUIT ∈ events) then [pygame_quit]
        else film cfg surface (Nat.iter (clicks cfg events) (next_array cfg) a) later)
  end.

(** The events a run handles: those of the frames up to the first frame
    that holds [QUIT], that frame included. *)
Fixpoint played (frames : list (list Event)) : list Event :=
  match frames with
  | [] => []
  | events :: later =>
    events ++ (if bool_decide (QUIT ∈ events) then [] else played later)
  end.

(** The game [build] makes from a new builder. *)
Definition built_game (scr g : nat) : Game.t :=
  fst (GameBuilder.build
         (GameBuilder.mk scr g EventManager.new CompositeGraphic.new)).

(** * Proofs *)

(** ** Arrays *)

Lemma norm_index_inside (n : nat) (i : Z) :
  0 <= i < Z.of_nat n -> norm_index n i = Ok (Z.to_nat i).
Proof.
  intros Hi. unfold norm_index.
  destruct (Z.leb_spec 0 i), (Z.ltb_spec i (Z.of_nat n)); simpl; try lia.
  reflexivity.
Qed.

(** Inside a well-formed array a read succeeds, and returns the cell. *)
Lemma arr_get_inside (a : ndarray) (x y : Z) :
  wf_array a -> 0 <= x < Z.of_nat (dim0 a) -> 0 <= y < Z.of_nat (dim1 a) ->
  exists r v, rows a !! Z.to_nat x = Some r /\ r !! Z.to_nat y = Some v /\
              arr_get a x y = Ok v.
Proof.
  intros [Hlen Hrows] Hx Hy.
  destruct (lookup_lt_is_Some_2 (rows a) (Z.to_nat x)) as [r Hr]; [lia|].
  assert (Hlr : length r = dim1 a).
  { exact (Forall_lookup_1 _ _ _ _ Hrows Hr). }
  destruct (lookup_lt_is_Some_2 r (Z.to_nat y)) as [v Hv]; [lia|].
  exists r, v. repeat split; try assumption.
  unfold arr_get. rewrite !norm_index_inside by assumption.
  rewrite Hr, Hv. reflexivity.
Qed.

Lemma arr_get_cell (a : ndarray) (x y : Z) :
  wf_array a -> 0 <= x < Z.of_nat (dim0 a) -> 0 <= y < Z.of_nat (dim1 a) ->
  arr_get a x y = Ok (cell a x y).
Proof.
  intros Hwf Hx Hy.
  destruct (arr_get_inside a x y Hwf Hx Hy) as (r & v & _ & _ & Hget).
  unfold cell. rewrite Hget. reflexivity.
Qed.

(** Inside a well-formed array a write succeeds; it changes the written cell
    and no other, and keeps the shape. *)
Lemma arr_set_inside (a : ndarray) (x y v : Z) :
  wf_array a -> 0 <= x < Z.of_nat (dim0 a) -> 0 <= y < Z.of_nat (dim1 a) ->
  exists a',
    arr_set a x y v = Ok a' /\ wf_array a' /\
    dim0 a' = dim0 a /\ dim1 a' = dim1 a /\
    cell a' x y = v /\
    (forall x' y', 0 <= x' < Z.of_nat (dim0 a) -> 0 <= y' < Z.of_nat (dim1 a) ->
                   (x', y') <> (x, y) -> cell a' x' y' = cell a x' y').
Proof.
  intros Hwf Hx Hy.
  destruct (arr_get_inside a x y Hwf Hx Hy) as (r & v0 & Hr & Hv0 & _).
  destruct Hwf as [Hlen Hrows].
  assert (Hlr : length r = dim1 a) by exact (Forall_lookup_1 _ _ _ _ Hrows Hr).
  set (a' := mk_ndarray (dim0 a) (dim1 a) (<[Z.to_nat x := <[Z.to_nat y := v]> r]> (rows a))).
  assert (Hwf' : wf_array a').
  { split; simpl.
    - rewrite length_insert. exact Hlen.
    - apply Forall_insert; [exact Hrows|]. rewrite length_insert. exact Hlr. }
  exists a'. split.
  { unfold arr_set. rewrite !norm_index_inside by assumption. rewrite Hr.
    destruct (Nat.ltb_spec (Z.to_nat y) (length r)); [reflexivity | lia]. }
  split; [exact Hwf'|]. split; [reflexivity|]. split; [reflexivity|]. split.
  - unfold cell, arr_get. simpl. rewrite !norm_index_inside by assumption.
    rewrite list_lookup_insert_eq by lia.
    rewrite list_lookup_insert_eq by lia. reflexivity.
  - intros x' y' Hx' Hy' Hne.
    unfold cell, arr_get. simpl. rewrite !norm_index_inside by assumption.
    destruct (decide (Z.to_nat x = Z.to_nat x')) as [Hxx | Hxx].
    + rewrite <- Hxx. rewrite list_lookup_insert_eq by lia. rewrite Hr.
      rewrite list_lookup_insert_ne; [reflexivity|].
      intros Hyy. apply Hne. f_equal; lia.
    + rewrite list_lookup_insert_ne by assumption. reflexivity.
Qed.

(** Two well-formed arrays of the same shape with the same cells are equal. *)
Lemma arr_ext (a b : ndarray) :
  wf_array a -> wf_array b -> dim0 a = dim0 b -> dim1 a = dim1 b ->
  (forall x y, 0 <= x < Z.of_nat (dim0 a) -> 0 <= y < Z.of_nat (dim1 a) ->
               cell a x y = cell b x y) ->
  a = b.
Proof.
  intros Hwa Hwb Hd0 Hd1 Hcells.
  destruct a as [wa ha ra], b as [wb hb rb]. simpl in *. subst wb hb.
  f_equal. apply list_eq. intros i.
  destruct Hwa as [Hla Hra], Hwb as [Hlb Hrb]. simpl in *.
  destruct (decide (i < wa)%nat) as [Hi | Hi].
  - destruct (lookup_lt_is_Some_2 ra i) as [r Hr]; [lia|].
    destruct (lookup_lt_is_Some_2 rb i) as [r' Hr']; [lia|].
    rewrite Hr, Hr'. f_equal. apply list_eq. intros j.
    pose proof (Forall_lookup_1 _ _ _ _ Hra Hr) as Hlr.
    pose proof (Forall_lookup_1 _ _ _ _ Hrb Hr') as Hlr'.
    simpl in *.
    destruct (decide (j < ha)%nat) as [Hj | Hj].
    + destruct (lookup_lt_is_Some_2 r j) as [v Hv]; [lia|].
      destruct (lookup_lt_is_Some_2 r' j) as [v' Hv']; [lia|].
      rewrite Hv, Hv'. f_equal.
      specialize (Hcells (Z.of_nat i) (Z.of_nat j) ltac:(lia) ltac:(lia)).
      unfold cell, arr_get in Hcells. simpl in Hcells.
      rewrite !norm_index_inside in Hcells by lia.
      rewrite !Nat2Z.id in Hcells. rewrite Hr, Hr', Hv, Hv' in Hcells.
      exact Hcells.
    + rewrite (lookup_ge_None_2 r) by lia. rewrite (lookup_ge_None_2 r') by lia.
      reflexivity.
  - rewrite (lookup_ge_None_2 ra) by lia. rewrite (lookup_ge_None_2 rb) by lia.
    reflexivity.
Qed.

Lemma wf_tabulate (w h : nat) (f : Z -> Z -> Z) : wf_array (tabulate w h f).
Proof.
  split; simpl.
  - rewrite length_fmap, length_seqZ. lia.
  - apply Forall_fmap, Forall_forall. intros x _. simpl.
    rewrite length_fmap, length_seqZ. lia.
Qed.

Lemma cell_tabulate (w h : nat) (f : Z -> Z -> Z) (x y : Z) :
  0 <= x < Z.of_nat w -> 0 <= y < Z.of_nat h ->
  cell (tabulate w h f) x y = f x y.
Proof.
  intros Hx Hy. unfold cell, arr_get. simpl.
  rewrite !norm_index_inside by assumption.
  rewrite list_lookup_fmap, lookup_seqZ_lt by lia. simpl.
  rewrite list_lookup_fmap, lookup_seqZ_lt by lia. simpl.
  f_equal; lia.
Qed.

Lemma tabulate_ext (w h : nat) (f g : Z -> Z -> Z) :
  (forall x y, 0 <= x < Z.of_nat w -> 0 <= y < Z.of_nat h -> f x y = g x y) ->
  tabulate w h f = tabulate w h g.
Proof.
  intros Hfg. apply arr_ext; try reflexivity; try apply wf_tabulate.
  simpl. intros x y Hx Hy. rewrite !cell_tabulate by assumption. auto.
Qed.

Lemma binary_cell (a : ndarray) (x y : Z) :
  wf_array a -> binary a ->
  0 <= x < Z.of_nat (dim0 a) -> 0 <= y < Z.of_nat (dim1 a) ->
  cell a x y = 0 \/ cell a x y = 1.
Proof.
  intros Hwf Hbin Hx Hy.
  destruct (arr_get_inside a x y Hwf Hx Hy) as (r & v & Hr & Hv & Hget).
  unfold cell. rewrite Hget.
  pose proof (Forall_lookup_1 _ _ _ _ Hbin Hr) as Hrow. simpl in Hrow.
  exact (Forall_lookup_1 _ _ _ _ Hrow Hv).
Qed.

Lemma binary_tabulate (w h : nat) (f : Z -> Z -> Z) :
  (forall x y, 0 <= x < Z.of_nat w -> 0 <= y < Z.of_nat h -> f x y = 0 \/ f x y = 1) ->
  binary (tabulate w h f).
Proof.
  intros Hf. unfold binary. simpl.
  apply Forall_fmap, Forall_forall. intros x Hx. simpl.
  apply Forall_fmap, Forall_forall. intros y Hy. simpl.
  apply elem_of_seqZ in Hx, Hy. apply Hf; lia.
Qed.

(** ** The heap *)

Lemma load_run (h : heap) (l : loc) (a : ndarray) :
  h !! l = Some a -> load l h = (Ok a, h).
Proof. intros Hl. unfold load. rewrite Hl. reflexivity. Qed.

Lemma getitem_run (h : heap) (l : loc) (a : ndarray) (i j : Z) :
  h !! l = Some a -> ndarray_getitem l i j h = (arr_get a i j, h).
Proof.
  intros Hl. unfold ndarray_getitem, bind. rewrite (load_run h l a Hl).
  reflexivity.
Qed.

Lemma setitem_run (h : heap) (l : loc) (a a' : ndarray) (i j v : Z) :
  h !! l = Some a -> arr_set a i j v = Ok a' ->
  ndarray_setitem l i j v h = (Ok tt, <[l := a']> h).
Proof.
  intros Hl Hset. unfold ndarray_setitem, bind, lift, store.
  rewrite (load_run h l a Hl), Hset, Hl. reflexivity.
Qed.

(** ** Loops *)

Lemma mapM_pure {S A B} (f : A -> M S B) (g : A -> B) (xs : list A) (s : S) :
  (forall x, x ∈ xs -> f x s = (Ok (g x), s)) ->
  mapM f xs s = (Ok (g <$> xs), s).
Proof.
  induction xs as [| x xs IH]; intros Hf; [reflexivity|].
  simpl. unfold bind at 1. rewrite Hf by apply list_elem_of_here.
  unfold bind at 1. rewrite IH; [reflexivity|].
  intros x' Hx'. apply Hf. apply list_elem_of_further. exact Hx'.
Qed.

(** A loop whose body keeps an invariant [P], indexed by the elements that
    have been processed, runs to its end and establishes [P] for all of
    them. *)
Lemma for_each_inv {S A} (P : list A -> S -> Prop) (body : A -> M S unit)
      (xs : list A) :
  forall (pre : list A) (s : S),
    P pre s ->
    (forall d x s0, x ∈ xs -> P d s0 ->
                    exists s1, body x s0 = (Ok tt, s1) /\ P (d ++ [x]) s1) ->
    exists s', for_each xs body s = (Ok tt, s') /\ P (pre ++ xs) s'.
Proof.
  induction xs as [| x xs IH]; intros pre s HP Hbody.
  - exists s. rewrite app_nil_r. split; [reflexivity | exact HP].
  - destruct (Hbody pre x s (list_elem_of_here _ _) HP) as (s1 & Hrun & HP1).
    destruct (IH (pre ++ [x]) s1 HP1) as (s' & Hrun' & HP').
    { intros d x' s0 Hx'. apply Hbody. apply list_elem_of_further. exact Hx'. }
    exists s'. split.
    + simpl. unfold bind. rewrite Hrun. exact Hrun'.
    + rewrite <- app_assoc in HP'. exact HP'.
Qed.

(** ** The neighbour count and the transition *)

Section GameProofs.

Variable cfg : GameConfig.
Hypothesis Hpos_x : 0 < n_cells_x cfg.
Hypothesis Hpos_y : 0 < n_cells_y cfg.

Lemma neighbor_index_run (x y : Z) (o : Z * Z) :
  neighbor_index cfg x y o =
  Ok ((x + fst o) mod n_cells_x cfg, (y + snd o) mod n_cells_y cfg).
Proof.
  unfold neighbor_index, py_mod.
  destruct (Z.eqb_spec (n_cells_x cfg) 0); [lia|].
  destruct (Z.eqb_spec (n_cells_y cfg) 0); [lia|].
  reflexivity.
Qed.

Lemma count_neighbors_run (h : heap) (self : GameState) (a : ndarray) (x y : Z) :
  h !! state self = Some a -> fits cfg a ->
  _count_neighbors cfg self x y h = (Ok (neighbor_sum cfg a x y), h).
Proof.
  intros Hl (Hwf & Hd0 & Hd1).
  unfold _count_neighbors, bind at 1.
  rewrite (mapM_pure _
    (fun o => cell a ((x + fst o) mod n_cells_x cfg) ((y + snd o) mod n_cells_y cfg))).
  - unfold ret, neighbor_sum, neighbor_cells. reflexivity.
  - intros o _. unfold bind, lift. rewrite neighbor_index_run. simpl.
    rewrite (getitem_run h _ a) by exact Hl.
    rewrite arr_get_cell; [reflexivity | exact Hwf | |].
    + rewrite Hd0. apply Z.mod_pos_bound. exact Hpos_x.
    + rewrite Hd1. apply Z.mod_pos_bound. exact Hpos_y.
Qed.

(** One pass through the loop body, whatever the array [b] under
    construction holds: the prior generation [a] alone decides, and [b] is
    written at [(x, y)] only, and only when the cell changes. *)
Lemma update_cell_run (h : heap) (self : GameState) (l' : loc)
      (a b : ndarray) (x y : Z) :
  h !! state self = Some a -> h !! l' = Some b ->
  fits cfg a -> fits cfg b ->
  0 <= x < n_cells_x cfg -> 0 <= y < n_cells_y cfg ->
  exists b',
    update_cell cfg self l' x y h = (Ok tt, <[l' := b']> h) /\
    fits cfg b' /\
    (transition (cell a x y) (neighbor_sum cfg a x y) <> cell a x y ->
     cell b' x y = transition (cell a x y) (neighbor_sum cfg a x y)) /\
    (transition (cell a x y) (neighbor_sum cfg a x y) = cell a x y -> b' = b) /\
    (forall x' y', 0 <= x' < n_cells_x cfg -> 0 <= y' < n_cells_y cfg ->
                   (x', y') <> (x, y) -> cell b' x' y' = cell b x' y').
Proof.
  intros Hl Hl' Hfa Hfb Hx Hy.
  pose proof Hfa as (Hwa & Ha0 & Ha1). pose proof Hfb as (Hwb & Hb0 & Hb1).
  unfold update_cell, bind at 1.
  rewrite (count_neighbors_run h self a x y Hl Hfa).
  set (n := neighbor_sum cfg a x y) in *.
  unfold bind at 1. rewrite (getitem_run h _ a) by exact Hl.
  rewrite arr_get_cell by (try assumption; lia).
  set (c := cell a x y) in *.
  destruct (arr_set_inside b x y 0 Hwb ltac:(lia) ltac:(lia))
    as (b0 & Hset0 & Hwf0 & Hd00 & Hd01 & Hc0 & Hoth0).
  destruct (arr_set_inside b x y 1 Hwb ltac:(lia) ltac:(lia))
    as (b1 & Hset1 & Hwf1 & Hd10 & Hd11 & Hc1 & Hoth1).
  unfold transition in *.
  destruct ((c =? 1) && ((n <? 2) || (n >? 3))) eqn:Hdie.
  - exists b0. split; [exact (setitem_run h l' b b0 x y 0 Hl' Hset0)|].
    split; [split; [exact Hwf0 | lia]|]. split; [intros _; exact Hc0|].
    split.
    + intros Hc. apply andb_prop in Hdie as [Hc' _].
      apply Z.eqb_eq in Hc'. lia.
    + intros x' y' Hx' Hy' Hne. apply Hoth0; (lia || assumption).
  - unfold bind at 1. rewrite (getitem_run h _ a) by exact Hl.
    rewrite arr_get_cell by (try assumption; lia). fold c.
    destruct ((c =? 0) && (n =? 3)) eqn:Hborn.
    + exists b1. split; [exact (setitem_run h l' b b1 x y 1 Hl' Hset1)|].
      split; [split; [exact Hwf1 | lia]|]. split; [intros _; exact Hc1|].
      split.
      * intros Hc. apply andb_prop in Hborn as [Hc' _].
        apply Z.eqb_eq in Hc'. lia.
      * intros x' y' Hx' Hy' Hne. apply Hoth1; (lia || assumption).
    + exists b. split.
      { unfold ret. rewrite list_insert_id by exact Hl'. reflexivity. }
      split; [exact Hfb|]. split; [intros Hc; contradiction|].
      split; reflexivity.
Qed.

Lemma loop_inv_step (h0 : heap) (self : GameState) (a : ndarray)
      (D : Z -> Z -> Prop) (h : heap) (x y : Z) :
  h0 !! state self = Some a -> fits cfg a ->
  0 <= x < n_cells_x cfg -> 0 <= y < n_cells_y cfg ->
  loop_inv cfg h0 a D h ->
  exists h',
    update_cell cfg self (length h0) x y h = (Ok tt, h') /\
    loop_inv cfg h0 a (fun x' y' => D x' y' \/ (x', y') = (x, y)) h'.
Proof.
  intros Hl Hfa Hx Hy (b & -> & Hfb & Hcells).
  assert (Hla : (h0 ++ [b]) !! state self = Some a)
    by (apply lookup_app_l_Some; exact Hl).
  assert (Hlb : (h0 ++ [b]) !! length h0 = Some b).
  { rewrite lookup_app_r by lia. rewrite Nat.sub_diag. reflexivity. }
  destruct (update_cell_run (h0 ++ [b]) self (length h0) a b x y
              Hla Hlb Hfa Hfb Hx Hy) as (b' & Hrun & Hfb' & Hch & Hsame & Hoth).
  assert (Hc : cell b' x y = transition (cell a x y) (neighbor_sum cfg a x y)).
  { destruct (decide (transition (cell a x y) (neighbor_sum cfg a x y) = cell a x y))
      as [Heq | Hne].
    - rewrite (Hsame Heq).
      destruct (Hcells x y Hx Hy) as [_ [Hb | Hb]]; congruence.
    - exact (Hch Hne). }
  exists (h0 ++ [b']). split.
  - rewrite Hrun. f_equal.
    rewrite insert_app_r_alt by lia. rewrite Nat.sub_diag. reflexivity.
  - exists b'. split; [reflexivity|]. split; [exact Hfb'|].
    intros x' y' Hx' Hy'.
    destruct (decide ((x', y') = (x, y))) as [Heq | Hne].
    + injection Heq as -> ->. split; [intros _; exact Hc | left; exact Hc].
    + rewrite (Hoth x' y' Hx' Hy' Hne).
      destruct (Hcells x' y' Hx' Hy') as [HD Hor]. split; [|exact Hor].
      intros [Hd | Heq]; [exact (HD Hd) | contradiction].
Qed.

Lemma loop_inv_weaken (h0 : heap) (a : ndarray) (D D' : Z -> Z -> Prop) (h : heap) :
  (forall x y, D' x y -> D x y) -> loop_inv cfg h0 a D h -> loop_inv cfg h0 a D' h.
Proof.
  intros HDD (b & Hh & Hfb & Hcells). exists b. split; [exact Hh|].
  split; [exact Hfb|]. intros x y Hx Hy.
  destruct (Hcells x y Hx Hy) as [HD Hor]. split; [|exact Hor].
  intros Hd. apply HD, HDD, Hd.
Qed.

(** The inner loop over [x] fills the row [y]. *)
Lemma inner_loop_run (h0 : heap) (self : GameState) (a : ndarray)
      (D : Z -> Z -> Prop) (h : heap) (y : Z) :
  h0 !! state self = Some a -> fits cfg a ->
  0 <= y < n_cells_y cfg ->
  loop_inv cfg h0 a D h ->
  exists h',
    for_each (range (n_cells_x cfg))
             (fun x => update_cell cfg self (length h0) x y) h = (Ok tt, h') /\
    loop_inv cfg h0 a (fun x' y' => D x' y' \/ y' = y) h'.
Proof.
  intros Hl Hfa Hy Hinv.
  destruct (for_each_inv
              (fun xs h1 => loop_inv cfg h0 a (fun x' y' => D x' y' \/ (y' = y /\ x' ∈ xs)) h1)
              (fun x => update_cell cfg self (length h0) x y)
              (range (n_cells_x cfg)) [] h) as (h' & Hrun & Hinv').
  - eapply loop_inv_weaken; [|exact Hinv].
    intros x' y' [Hd | [_ Hin]]; [exact Hd | inversion Hin].
  - intros d x h1 Hin Hinv1. apply elem_of_seqZ in Hin.
    destruct (loop_inv_step h0 self a _ h1 x y Hl Hfa ltac:(lia) Hy Hinv1)
      as (h2 & Hrun2 & Hinv2).
    exists h2. split; [exact Hrun2|].
    eapply loop_inv_weaken; [|exact Hinv2].
    intros x' y' [Hd | [-> Hin']]; [left; left; exact Hd|].
    apply elem_of_app in Hin' as [Hin' | Hin'].
    + left; right. split; [reflexivity | exact Hin'].
    + right. apply list_elem_of_singleton in Hin'. subst x'. reflexivity.
  - exists h'. split; [exact Hrun|].
    destruct Hinv' as (b & Hh & Hfb & Hcells). exists b.
    split; [exact Hh|]. split; [exact Hfb|]. intros x' y' Hx' Hy'.
    destruct (Hcells x' y' Hx' Hy') as [HD Hor]. split; [|exact Hor].
    intros [Hd | ->]; apply HD; [left; exact Hd|].
    right. split; [reflexivity|]. simpl. apply elem_of_seqZ. lia.
Qed.

(** The two loops fill every cell. *)
Lemma loops_run (h0 : heap) (self : GameState) (a : ndarray) :
  h0 !! state self = Some a -> fits cfg a ->
  for_each (range (n_cells_y cfg)) (fun y =>
    for_each (range (n_cells_x cfg)) (fun x =>
      update_cell cfg self (length h0) x y)) (h0 ++ [a])
  = (Ok tt, h0 ++ [next_array cfg a]).
Proof.
  intros Hl Hfa.
  destruct (for_each_inv
              (fun ys h1 => loop_inv cfg h0 a (fun _ y' => y' ∈ ys) h1)
              (fun y => for_each (range (n_cells_x cfg)) (fun x =>
                          update_cell cfg self (length h0) x y))
              (range (n_cells_y cfg)) [] (h0 ++ [a])) as (h' & Hrun & Hinv').
  - exists a. split; [reflexivity|]. split; [exact Hfa|].
    intros x y _ _. split; [intros Hin; inversion Hin | right; reflexivity].
  - intros d y h1 Hin Hinv1. apply elem_of_seqZ in Hin.
    destruct (inner_loop_run h0 self a _ h1 y Hl Hfa ltac:(lia) Hinv1)
      as (h2 & Hrun2 & Hinv2).
    exists h2. split; [exact Hrun2|].
    eapply loop_inv_weaken; [|exact Hinv2].
    intros x' y' Hin'. apply elem_of_app in Hin' as [Hin' | Hin'].
    + left. exact Hin'.
    + right. apply list_elem_of_singleton in Hin'. exact Hin'.
  - rewrite Hrun. f_equal. destruct Hinv' as (b & -> & Hfb & Hcells).
    f_equal. f_equal.
    destruct Hfa as (Hwa & Ha0 & Ha1), Hfb as (Hwb & Hb0 & Hb1).
    apply arr_ext; try assumption.
    + apply wf_tabulate.
    + simpl. lia.
    + simpl. lia.
    + intros x y Hx Hy. unfold next_array.
      rewrite cell_tabulate by lia.
      apply Hcells; [lia | lia |]. simpl. apply elem_of_seqZ. lia.
Qed.

(** [next_generation] allocates one array, the table of the transition on
    the prior generation, leaves every other object as it is and returns
    the state object pointing to the new array. *)
Lemma next_generation_run (h : heap) (self : GameState) (a : ndarray) :
  h !! state self = Some a -> fits cfg a ->
  next_generation cfg self h =
  (Ok (mk_GameState (length h)), h ++ [next_array cfg a]).
Proof.
  intros Hl Hfa. unfold next_generation, bind at 1.
  unfold np_copy, bind at 1. rewrite (load_run h _ a Hl).
  unfold alloc, bind at 1.
  rewrite (loops_run h self a Hl Hfa). reflexivity.
Qed.

Lemma fits_next_array (a : ndarray) : fits cfg a -> fits cfg (next_array cfg a).
Proof.
  intros (Hwf & H0 & H1). split; [apply wf_tabulate|]. simpl. lia.
Qed.

End GameProofs.

(** ** Counting ALIVE cells *)

Lemma wrap64_small (z : Z) : - 2 ^ 63 <= z < 2 ^ 63 -> wrap64 z = z.
Proof.
  intros Hz. unfold wrap64. rewrite Z.mod_small; lia.
Qed.

(** On cells that are 0 or 1 the sum of [np.int64] scalars does not wrap. *)
Lemma fold_add64_bits (vs : list Z) :
  forall acc,
    Forall (fun v => v = 0 \/ v = 1) vs ->
    0 <= acc -> acc + Z.of_nat (length vs) < 2 ^ 63 ->
    fold_left add64 vs acc = acc + foldr Z.add 0 vs /\
    0 <= foldr Z.add 0 vs <= Z.of_nat (length vs).
Proof.
  induction vs as [| v vs IH]; intros acc Hvs Hacc Hlen; simpl in *.
  - lia.
  - inversion Hvs as [| ? ? Hv Hvs']; subst.
    assert (Hadd : add64 acc v = acc + v).
    { unfold add64. apply wrap64_small. lia. }
    rewrite Hadd.
    destruct (IH (acc + v) Hvs' ltac:(lia) ltac:(lia)) as [Hfold Hbound].
    rewrite Hfold. lia.
Qed.

Lemma offsets_eq :
  offsets = [(-1, -1); (-1, 0); (-1, 1); (0, -1); (0, 1); (1, -1); (1, 0); (1, 1)].
Proof. reflexivity. Qed.

Lemma neighbor_sum_binary (cfg : GameConfig) (a : ndarray) (x y : Z) :
  0 < n_cells_x cfg -> 0 < n_cells_y cfg -> fits cfg a -> binary a ->
  neighbor_sum cfg a x y = live_neighbors (n_cells_x cfg) (n_cells_y cfg) a x y /\
  0 <= neighbor_sum cfg a x y <= 8.
Proof.
  intros Hx Hy (Hwf & H0 & H1) Hbin.
  unfold neighbor_sum, py_sum.
  destruct (fold_add64_bits (neighbor_cells cfg a x y) 0) as [Hfold Hbound].
  - unfold neighbor_cells. apply Forall_fmap, Forall_forall. intros o _. simpl.
    apply binary_cell; try assumption.
    + rewrite H0. apply Z.mod_pos_bound. exact Hx.
    + rewrite H1. apply Z.mod_pos_bound. exact Hy.
  - lia.
  - unfold neighbor_cells. rewrite length_fmap, offsets_eq. simpl. lia.
  - rewrite Hfold. split.
    + unfold neighbor_cells, live_neighbors. rewrite offsets_eq.
      cbn [fmap list_fmap foldr fst snd].
      rewrite !Z.add_0_r.
      change (x + -1) with (x - 1). change (y + -1) with (y - 1). lia.
    + assert (Hlen : length (neighbor_cells cfg a x y) = 8%nat)
        by (unfold neighbor_cells; rewrite length_fmap, offsets_eq; reflexivity).
      rewrite Hlen in Hbound. lia.
Qed.

Lemma transition_standard_rule (c n : Z) : transition c n = standard_rule c n.
Proof.
  unfold transition, standard_rule, ALIVE, DEAD.
  rewrite (Z.gtb_ltb n 3). reflexivity.
Qed.

(** On a grid of ALIVE and DEAD cells the array [next_generation] builds is
    the reference transition. *)
Lemma next_array_reference (cfg : GameConfig) (a : ndarray) :
  0 < n_cells_x cfg -> 0 < n_cells_y cfg -> fits cfg a -> binary a ->
  next_array cfg a = reference_step a.
Proof.
  intros Hx Hy Hfa Hbin. unfold next_array, reference_step.
  apply tabulate_ext. intros x y _ _.
  rewrite transition_standard_rule.
  destruct (neighbor_sum_binary cfg a x y Hx Hy Hfa Hbin) as [-> _].
  destruct Hfa as (_ & -> & ->). reflexivity.
Qed.

Lemma transition_binary (c n : Z) : c = 0 \/ c = 1 -> transition c n = 0 \/ transition c n = 1.
Proof.
  intros Hc. unfold transition.
  destruct ((c =? 1) && ((n <? 2) || (n >? 3))); [left; reflexivity|].
  destruct ((c =? 0) && (n =? 3)); [right; reflexivity | exact Hc].
Qed.

Lemma binary_next_array (cfg : GameConfig) (a : ndarray) :
  wf_array a -> binary a -> binary (next_array cfg a).
Proof.
  intros Hwf Hbin. apply binary_tabulate. intros x y Hx Hy.
  apply transition_binary. apply binary_cell; assumption.
Qed.


(** [n] calls of [next_generation] run to their end: the state refers to the
    [n]-th iterate of the transition, and no object of the heap before the
    calls is changed. *)
Lemma advance_run (cfg : GameConfig) (n : nat) :
  0 < n_cells_x cfg -> 0 < n_cells_y cfg ->
  forall (h : heap) (self : GameState) (a : ndarray),
    h !! state self = Some a -> fits cfg a ->
    exists self' h',
      advance cfg n self h = (Ok self', h') /\
      h' !! state self' = Some (Nat.iter n (next_array cfg) a) /\
      fits cfg (Nat.iter n (next_array cfg) a) /\
      (forall l b, h !! l = Some b -> h' !! l = Some b).
Proof.
  intros Hx Hy. induction n as [| n IH]; intros h self a Hl Hfa.
  - exists self, h. simpl. split; [reflexivity|]. split; [exact Hl|].
    split; [exact Hfa | auto].
  - simpl advance. unfold bind.
    rewrite (next_generation_run cfg Hx Hy h self a Hl Hfa).
    destruct (IH (h ++ [next_array cfg a]) (mk_GameState (length h)) (next_array cfg a))
      as (self' & h' & Hrun & Hl' & Hf' & Hkeep).
    { simpl. rewrite lookup_app_r by lia. rewrite Nat.sub_diag. reflexivity. }
    { apply fits_next_array, Hfa. }
    exists self', h'. split; [exact Hrun|].
    rewrite Nat.iter_succ_r. split; [exact Hl'|]. split; [exact Hf'|].
    intros l b Hb. apply Hkeep. apply lookup_app_l_Some. exact Hb.
Qed.

Lemma GameState_init_run (cfg : GameConfig) (draw : Z -> Z -> nat) (h : heap) :
  0 <= n_cells_x cfg -> 0 <= n_cells_y cfg ->
  exists a,
    GameState_init cfg draw h = (Ok (mk_GameState (length h)), h ++ [a]) /\
    fits cfg a /\ binary a /\
    shape a = (Z.to_nat (n_cells_x cfg), Z.to_nat (n_cells_y cfg)).
Proof.
  intros Hx Hy. unfold GameState_init, np_random_choice, bind. cbn [fst snd].
  destruct (Z.ltb_spec (n_cells_x cfg) 0); [lia|].
  destruct (Z.ltb_spec (n_cells_y cfg) 0); [lia|]. cbn [orb].
  unfold alloc, ret.
  eexists. split; [reflexivity|]. split; [|split; [|reflexivity]].
  - split; [apply wf_tabulate|]. simpl. lia.
  - apply binary_tabulate. intros x y _ _.
    change (length [0; 1]) with 2%nat.
    pose proof (Nat.mod_upper_bound (draw x y) 2 ltac:(lia)) as Hlt.
    destruct (draw x y mod 2)%nat as [| [| k]]; [left | right | lia]; reflexivity.
Qed.

(** ** Patterns on the torus *)

Lemma mod_pred (w x : Z) :
  0 <= x < w -> (x - 1) mod w = if x =? 0 then w - 1 else x - 1.
Proof.
  intros Hx. destruct (Z.eqb_spec x 0) as [-> | Hne].
  - symmetry. apply (Z.mod_unique_pos _ _ (-1)); lia.
  - apply Z.mod_small. lia.
Qed.

Lemma mod_succ (w x : Z) :
  0 <= x < w -> (x + 1) mod w = if x =? w - 1 then 0 else x + 1.
Proof.
  intros Hx. destruct (Z.eqb_spec x (w - 1)) as [-> | Hne].
  - symmetry. apply (Z.mod_unique_pos _ _ 1); lia.
  - apply Z.mod_small. lia.
Qed.

(** Decides the comparisons of the goal one after the other; the cases that
    contradict the hypotheses are closed at once. *)
Ltac split_comparisons :=
  repeat match goal with
         | |- context [Z.ltb ?a ?b] => destruct (Z.ltb_spec a b); try lia
         end;
  repeat match goal with
         | |- context [Z.eqb ?a ?b] => destruct (Z.eqb_spec a b); try lia
         end.

Lemma reference_step_tabulate (w h : Z) (f : Z -> Z -> Z) :
  0 < w -> 0 < h ->
  reference_step (tabulate (Z.to_nat w) (Z.to_nat h) f)
  = tabulate (Z.to_nat w) (Z.to_nat h) (life w h f).
Proof.
  intros Hw Hh. unfold reference_step. cbn [dim0 dim1 tabulate].
  apply tabulate_ext. intros x y Hx Hy.
  rewrite !Z2Nat.id in * by lia.
  unfold life, live_neighbors, moore_sum.
  pose proof (Z.mod_pos_bound (x - 1) w Hw). pose proof (Z.mod_pos_bound x w Hw).
  pose proof (Z.mod_pos_bound (x + 1) w Hw).
  pose proof (Z.mod_pos_bound (y - 1) h Hh). pose proof (Z.mod_pos_bound y h Hh).
  pose proof (Z.mod_pos_bound (y + 1) h Hh).
  fold (tabulate (Z.to_nat w) (Z.to_nat h) f).
  rewrite !cell_tabulate by lia. reflexivity.
Qed.

Lemma life_ext (w h : Z) (f g : Z -> Z -> Z) (x y : Z) :
  0 < w -> 0 < h -> 0 <= x < w -> 0 <= y < h ->
  (forall x' y', 0 <= x' < w -> 0 <= y' < h -> f x' y' = g x' y') ->
  life w h f x y = life w h g x y.
Proof.
  intros Hw Hh Hx Hy Hfg. unfold life, moore_sum.
  pose proof (Z.mod_pos_bound (x - 1) w Hw). pose proof (Z.mod_pos_bound x w Hw).
  pose proof (Z.mod_pos_bound (x + 1) w Hw).
  pose proof (Z.mod_pos_bound (y - 1) h Hh). pose proof (Z.mod_pos_bound y h Hh).
  pose proof (Z.mod_pos_bound (y + 1) h Hh).
  rewrite !Hfg by assumption. reflexivity.
Qed.

(** The transition commutes with the translations of the torus. *)
Lemma life_shift (w h dx dy : Z) (f : Z -> Z -> Z) (x y : Z) :
  life w h (shift w h dx dy f) x y = shift w h dx dy (life w h f) x y.
Proof.
  assert (Hpred : forall m z d, ((z - 1) mod m - d) mod m = ((z - d) mod m - 1) mod m).
  { intros m z d. rewrite !Zminus_mod_idemp_l. f_equal. lia. }
  assert (Hsucc : forall m z d, ((z + 1) mod m - d) mod m = ((z - d) mod m + 1) mod m).
  { intros m z d. rewrite Zminus_mod_idemp_l, Zplus_mod_idemp_l. f_equal. lia. }
  assert (Hsame : forall m z d, (z mod m - d) mod m = ((z - d) mod m) mod m).
  { intros m z d. rewrite Zminus_mod_idemp_l, Zmod_mod. reflexivity. }
  unfold life, moore_sum, shift.
  rewrite (Hpred w x dx), (Hsucc w x dx), (Hsame w x dx).
  rewrite (Hpred h y dy), (Hsucc h y dy), (Hsame h y dy).
  reflexivity.
Qed.

(** The blinker centred on [(1, 1)] turns from horizontal to vertical. *)
Lemma blinker_centred (w h x y : Z) :
  4 <= w -> 3 <= h -> 0 <= x < w -> 0 <= y < h ->
  life w h blinker_h0 x y = blinker_v0 x y.
Proof.
  intros Hw Hh Hx Hy. unfold life, moore_sum.
  rewrite !(mod_pred w x), !(mod_succ w x), !(mod_pred h y), !(mod_succ h y),
    !(Z.mod_small x w), !(Z.mod_small y h) by lia.
  destruct (Z.eqb_spec x 0), (Z.eqb_spec x (w - 1)),
    (Z.eqb_spec y 0), (Z.eqb_spec y (h - 1)); try lia;
    unfold blinker_h0, blinker_v0; split_comparisons; reflexivity.
Qed.

(** The block whose corner is [(0, 0)] is still. *)
Lemma block_centred (w h x y : Z) :
  3 <= w -> 3 <= h -> 0 <= x < w -> 0 <= y < h ->
  life w h block0 x y = block0 x y.
Proof.
  intros Hw Hh Hx Hy. unfold life, moore_sum.
  rewrite !(mod_pred w x), !(mod_succ w x), !(mod_pred h y), !(mod_succ h y),
    !(Z.mod_small x w), !(Z.mod_small y h) by lia.
  destruct (Z.eqb_spec x 0), (Z.eqb_spec x (w - 1)),
    (Z.eqb_spec y 0), (Z.eqb_spec y (h - 1)); try lia;
    unfold block0; split_comparisons; reflexivity.
Qed.

Lemma mod_near (w z : Z) :
  - w <= z < 2 * w ->
  z mod w = if z <? 0 then z + w else if z <? w then z else z - w.
Proof.
  intros Hz. destruct (Z.ltb_spec z 0) as [Hneg | Hpos].
  - symmetry. apply (Z.mod_unique_pos _ _ (-1)); lia.
  - destruct (Z.ltb_spec z w) as [Hlt | Hge].
    + apply Z.mod_small. lia.
    + symmetry. apply (Z.mod_unique_pos _ _ 1); lia.
Qed.

(** The patterns at any place of the torus are translations of the patterns
    at the origin. *)
Lemma blinker_h_shift (w h cx cy x y : Z) :
  4 <= w -> 3 <= h -> 0 <= cx < w -> 0 <= cy < h -> 0 <= x < w -> 0 <= y < h ->
  (if (y =? cy) && ((x =? (cx - 1) mod w) || (x =? cx) || (x =? (cx + 1) mod w))
   then ALIVE else DEAD)
  = shift w h (cx - 1) (cy - 1) blinker_h0 x y.
Proof.
  intros Hw Hh Hcx Hcy Hx Hy. unfold shift.
  rewrite (mod_pred w cx), (mod_succ w cx) by lia.
  rewrite (mod_near w (x - (cx - 1))), (mod_near h (y - (cy - 1))) by lia.
  destruct (Z.eqb_spec cx 0), (Z.eqb_spec cx (w - 1)); try lia;
    unfold blinker_h0; split_comparisons; reflexivity.
Qed.

Lemma blinker_v_shift (w h cx cy x y : Z) :
  4 <= w -> 3 <= h -> 0 <= cx < w -> 0 <= cy < h -> 0 <= x < w -> 0 <= y < h ->
  (if (x =? cx) && ((y =? (cy - 1) mod h) || (y =? cy) || (y =? (cy + 1) mod h))
   then ALIVE else DEAD)
  = shift w h (cx - 1) (cy - 1) blinker_v0 x y.
Proof.
  intros Hw Hh Hcx Hcy Hx Hy. unfold shift.
  rewrite (mod_pred h cy), (mod_succ h cy) by lia.
  rewrite (mod_near w (x - (cx - 1))), (mod_near h (y - (cy - 1))) by lia.
  destruct (Z.eqb_spec cy 0), (Z.eqb_spec cy (h - 1)); try lia;
    unfold blinker_v0; split_comparisons; reflexivity.
Qed.

Lemma block_shift (w h px py x y : Z) :
  3 <= w -> 3 <= h -> 0 <= px < w -> 0 <= py < h -> 0 <= x < w -> 0 <= y < h ->
  (if ((x =? px) || (x =? (px + 1) mod w)) && ((y =? py) || (y =? (py + 1) mod h))
   then ALIVE else DEAD)
  = shift w h px py block0 x y.
Proof.
  intros Hw Hh Hpx Hpy Hx Hy. unfold shift.
  rewrite (mod_succ w px), (mod_succ h py) by lia.
  rewrite (mod_near w (x - px)), (mod_near h (y - py)) by lia.
  destruct (Z.eqb_spec px (w - 1)), (Z.eqb_spec py (h - 1));
    unfold block0; split_comparisons; reflexivity.
Qed.

Lemma fits_tabulate (cfg : GameConfig) (f : Z -> Z -> Z) :
  0 <= n_cells_x cfg -> 0 <= n_cells_y cfg ->
  fits cfg (tabulate (Z.to_nat (n_cells_x cfg)) (Z.to_nat (n_cells_y cfg)) f).
Proof.
  intros Hx Hy. split; [apply wf_tabulate|]. simpl. lia.
Qed.

Lemma binary_pattern (w h : nat) (p : Z -> Z -> bool) :
  binary (tabulate w h (fun x y => if p x y then ALIVE else DEAD)).
Proof.
  apply binary_tabulate. intros x y _ _.
  destruct (p x y); [right | left]; reflexivity.
Qed.

(** From the transition on cell functions to the array [next_generation]
    builds: when the pattern [f] is a translation of [f0], and [g] the same
    translation of [g0], and [f0] becomes [g0], then [f] becomes [g]. *)
Lemma next_array_pattern (cfg : GameConfig) (p q : Z -> Z -> bool)
      (f0 g0 : Z -> Z -> Z) (dx dy : Z) :
  let w := n_cells_x cfg in
  let h := n_cells_y cfg in
  0 < w -> 0 < h ->
  (forall x y, 0 <= x < w -> 0 <= y < h ->
     (if p x y then ALIVE else DEAD) = shift w h dx dy f0 x y) ->
  (forall x y, 0 <= x < w -> 0 <= y < h ->
     (if q x y then ALIVE else DEAD) = shift w h dx dy g0 x y) ->
  (forall x y, 0 <= x < w -> 0 <= y < h -> life w h f0 x y = g0 x y) ->
  next_array cfg (tabulate (Z.to_nat w) (Z.to_nat h)
                    (fun x y => if p x y then ALIVE else DEAD))
  = tabulate (Z.to_nat w) (Z.to_nat h) (fun x y => if q x y then ALIVE else DEAD).
Proof.
  intros w h Hw Hh Hp Hq Hlife.
  rewrite next_array_reference;
    [| exact Hw | exact Hh | apply fits_tabulate; lia | apply binary_pattern].
  rewrite reference_step_tabulate by assumption.
  apply tabulate_ext. intros x y Hx Hy. rewrite !Z2Nat.id in * by lia.
  rewrite (life_ext w h _ (shift w h dx dy f0) x y Hw Hh Hx Hy Hp).
  rewrite life_shift, (Hq x y Hx Hy). unfold shift.
  apply Hlife; apply Z.mod_pos_bound; assumption.
Qed.

Lemma next_array_blinker (cfg : GameConfig) (cx cy : Z) :
  4 <= n_cells_x cfg -> 3 <= n_cells_y cfg ->
  0 <= cx < n_cells_x cfg -> 0 <= cy < n_cells_y cfg ->
  next_array cfg (blinker_horizontal cfg cx cy) = blinker_vertical cfg cx cy.
Proof.
  intros Hw Hh Hcx Hcy. unfold blinker_horizontal, blinker_vertical.
  apply (next_array_pattern cfg
           (fun x y => (y =? cy) && ((x =? (cx - 1) mod n_cells_x cfg) || (x =? cx)
                                     || (x =? (cx + 1) mod n_cells_x cfg)))
           (fun x y => (x =? cx) && ((y =? (cy - 1) mod n_cells_y cfg) || (y =? cy)
                                     || (y =? (cy + 1) mod n_cells_y cfg)))
           blinker_h0 blinker_v0 (cx - 1) (cy - 1)); try lia.
  - intros x y Hx Hy. apply blinker_h_shift; assumption.
  - intros x y Hx Hy. apply blinker_v_shift; assumption.
  - intros x y Hx Hy. apply blinker_centred; assumption.
Qed.

Lemma next_array_block (cfg : GameConfig) (px py : Z) :
  3 <= n_cells_x cfg -> 3 <= n_cells_y cfg ->
  0 <= px < n_cells_x cfg -> 0 <= py < n_cells_y cfg ->
  next_array cfg (block cfg px py) = block cfg px py.
Proof.
  intros Hw Hh Hpx Hpy. unfold block.
  apply (next_array_pattern cfg
           (fun x y => ((x =? px) || (x =? (px + 1) mod n_cells_x cfg))
                       && ((y =? py) || (y =? (py + 1) mod n_cells_y cfg)))
           (fun x y => ((x =? px) || (x =? (px + 1) mod n_cells_x cfg))
                       && ((y =? py) || (y =? (py + 1) mod n_cells_y cfg)))
           block0 block0 px py); try lia.
  - intros x y Hx Hy. apply block_shift; assumption.
  - intros x y Hx Hy. apply block_shift; assumption.
  - intros x y Hx Hy. apply block_centred; assumption.
Qed.

(** Every grid the program reaches, by [GameState.__init__] followed by any
    number of calls of [next_generation], has the configured shape and holds
    0/1 cells only. *)
Lemma reachable_grids (cfg : GameConfig) (draw : Z -> Z -> nat) (h : heap) (n : nat) :
  0 < n_cells_x cfg -> 0 < n_cells_y cfg ->
  exists self0 h0 self' h' a',
    GameState_init cfg draw h = (Ok self0, h0) /\
    advance cfg n self0 h0 = (Ok self', h') /\
    h' !! state self' = Some a' /\ fits cfg a' /\ binary a'.
Proof.
  intros Hx Hy.
  destruct (GameState_init_run cfg draw h) as (a0 & Hinit & Hf0 & Hb0 & _);
    [lia | lia |].
  destruct (advance_run cfg n Hx Hy (h ++ [a0]) (mk_GameState (length h)) a0)
    as (self' & h' & Hrun & Hl' & Hf' & _).
  { simpl. rewrite lookup_app_r by lia. rewrite Nat.sub_diag. reflexivity. }
  { exact Hf0. }
  eexists _, _, self', h', _. split; [exact Hinit|]. split; [exact Hrun|].
  split; [exact Hl'|]. split; [exact Hf'|].
  clear Hrun Hl' Hf'. induction n as [| n IH]; [exact Hb0|].
  simpl. apply binary_next_array; [|exact IH].
  clear IH. induction n as [| n IH]; [exact (proj1 Hf0)|].
  simpl. apply wf_tabulate.
Qed.

(** Discharges a decidable side condition on concrete data by evaluation. *)
Ltac by_decide :=
  lazymatch goal with
  | |- ?P => refine (@bool_decide_unpack P _ _); vm_compute; exact I
  end.

(** * The claims *)



(** C2: on a grid of ALIVE and DEAD cells, [next_generation] computes every
    new cell from the prior generation only and replaces the grid wholesale:
    the call allocates one new array, equal to the two-buffer reference
    transition of the prior array, and makes the state refer to it; the prior
    array object is never written; and whatever the array under construction
    holds, a pass of the loop body decides from the prior array alone and
    writes the cell at hand only. *)
Theorem next_generation_two_buffer
        (cfg : GameConfig) (h : heap) (self : GameState) (a : ndarray) :
  0 < n_cells_x cfg -> 0 < n_cells_y cfg ->
  h !! state self = Some a -> fits cfg a -> binary a ->
  next_generation cfg self h =
    (Ok (mk_GameState (length h)), h ++ [reference_step a]) /\
  state self <> length h /\
  (h ++ [reference_step a]) !! state self = Some a /\
  forall b x y,
    fits cfg b -> 0 <= x < n_cells_x cfg -> 0 <= y < n_cells_y cfg ->
    let v := standard_rule (cell a x y)
               (live_neighbors (n_cells_x cfg) (n_cells_y cfg) a x y) in
    exists b',
      update_cell cfg self (length h) x y (h ++ [b]) = (Ok tt, h ++ [b']) /\
      (v <> cell a x y -> cell b' x y = v) /\
      (v = cell a x y -> b' = b) /\
      (forall x' y', 0 <= x' < n_cells_x cfg -> 0 <= y' < n_cells_y cfg ->
                     (x', y') <> (x, y) -> cell b' x' y' = cell b x' y').
Proof.
  intros Hx Hy Hl Hfa Hbin.
  split.
  { rewrite (next_generation_run cfg Hx Hy h self a Hl Hfa).
    rewrite (next_array_reference cfg a Hx Hy Hfa Hbin). reflexivity. }
  split.
  { apply lookup_lt_Some in Hl. lia. }
  split.
  { apply lookup_app_l_Some. exact Hl. }
  intros b x y Hfb Hxr Hyr v.
  assert (Hla : (h ++ [b]) !! state self = Some a)
    by (apply lookup_app_l_Some; exact Hl).
  assert (Hlb : (h ++ [b]) !! length h = Some b).
  { rewrite lookup_app_r by lia. rewrite Nat.sub_diag. reflexivity. }
  destruct (update_cell_run cfg Hx Hy (h ++ [b]) self (length h) a b x y
              Hla Hlb Hfa Hfb Hxr Hyr) as (b' & Hrun & _ & Hch & Hsame & Hoth).
  assert (Hv : transition (cell a x y) (neighbor_sum cfg a x y) = v).
  { rewrite transition_standard_rule.
    destruct (neighbor_sum_binary cfg a x y Hx Hy Hfa Hbin) as [-> _].
    reflexivity. }
  rewrite Hv in Hch, Hsame.
  exists b'. split.
  - rewrite Hrun. f_equal.
    rewrite insert_app_r_alt by lia. rewrite Nat.sub_diag. reflexivity.
  - split; [exact Hch|]. split; [exact Hsame | exact Hoth].
Qed.

Lemma next_generation_two_buffer_witness :
  next_generation config (mk_GameState 0) [glider] =
    (Ok (mk_GameState 1), [glider; reference_step glider]) /\
  0%nat <> 1%nat /\
  [glider; reference_step glider] !! 0%nat = Some glider /\
  forall b x y,
    fits config b -> 0 <= x < 40 -> 0 <= y < 30 ->
    let v := standard_rule (cell glider x y) (live_neighbors 40 30 glider x y) in
    exists b',
      update_cell config (mk_GameState 0) 1 x y [glider; b] = (Ok tt, [glider; b']) /\
      (v <> cell glider x y -> cell b' x y = v) /\
      (v = cell glider x y -> b' = b) /\
      (forall x' y', 0 <= x' < 40 -> 0 <= y' < 30 ->
                     (x', y') <> (x, y) -> cell b' x' y' = cell b x' y').
Proof.
  apply (next_generation_two_buffer config [glider] (mk_GameState 0) glider).
  - simpl; lia.
  - simpl; lia.
  - reflexivity.
  - by_decide.
  - by_decide.
Defined.

(** The count as the sum of the cells at the wrapped indices, for any
    integer cells. *)
Lemma count_neighbors_cells (cfg : GameConfig) (h : heap) (self : GameState)
      (a : ndarray) (x y : Z) :
  0 < n_cells_x cfg -> 0 < n_cells_y cfg ->
  h !! state self = Some a -> fits cfg a ->
  _count_neighbors cfg self x y h =
  (Ok (py_sum
         [cell a ((x - 1) mod n_cells_x cfg) ((y - 1) mod n_cells_y cfg);
          cell a ((x - 1) mod n_cells_x cfg) (y mod n_cells_y cfg);
          cell a ((x - 1) mod n_cells_x cfg) ((y + 1) mod n_cells_y cfg);
          cell a (x mod n_cells_x cfg) ((y - 1) mod n_cells_y cfg);
          cell a (x mod n_cells_x cfg) ((y + 1) mod n_cells_y cfg);
          cell a ((x + 1) mod n_cells_x cfg) ((y - 1) mod n_cells_y cfg);
          cell a ((x + 1) mod n_cells_x cfg) (y mod n_cells_y cfg);
          cell a ((x + 1) mod n_cells_x cfg) ((y + 1) mod n_cells_y cfg)]), h).
Proof.
  intros Hx Hy Hl Hfa.
  rewrite (count_neighbors_run cfg Hx Hy h self a x y Hl Hfa).
  unfold neighbor_sum, neighbor_cells. rewrite offsets_eq.
  cbn [fmap list_fmap fst snd]. rewrite !Z.add_0_r.
  change (x + -1) with (x - 1). change (y + -1) with (y - 1). reflexivity.
Qed.

Lemma wrap_low (m : Z) : 0 < m -> (0 - 1) mod m = m - 1.
Proof. intros Hm. symmetry. apply (Z.mod_unique_pos _ _ (-1)); lia. Qed.

Lemma wrap_high (m : Z) : 0 < m -> (m - 1 + 1) mod m = 0.
Proof.
  intros Hm. replace (m - 1 + 1) with (0 + 1 * m) by lia.
  rewrite Z.mod_add by lia. apply Z.mod_0_l. lia.
Qed.

(** C3: for every cell [(x, y)], at the edges and corners too,
    [_count_neighbors] reads the eight cells at
    [((x + i) mod W, (y + j) mod H)] and returns their sum: each of these
    indices lies inside the array, each read succeeds, and the count is the
    sum of the values read.  For a cell in the first column the three
    neighbours on its left are the cells of the last column, for a cell in
    the last column the three on its right are the cells of the first
    column, and likewise for the first and the last row and for the corner;
    an ALIVE cell on the opposite edge is counted. *)
Theorem count_neighbors_wraps
        (cfg : GameConfig) (h : heap) (self : GameState) (a : ndarray) (x y : Z) :
  0 < n_cells_x cfg -> 0 < n_cells_y cfg ->
  h !! state self = Some a -> fits cfg a ->
  let W := n_cells_x cfg in
  let H := n_cells_y cfg in
  (forall o, o ∈ offsets ->
     exists i j v,
       neighbor_index cfg x y o = Ok (i, j) /\
       i = (x + fst o) mod n_cells_x cfg /\ j = (y + snd o) mod n_cells_y cfg /\
       0 <= i < Z.of_nat (dim0 a) /\ 0 <= j < Z.of_nat (dim1 a) /\
       ndarray_getitem (state self) i j h = (Ok v, h)) /\
  (exists n, _count_neighbors cfg self x y h = (Ok n, h)) /\
  (0 <= y < n_cells_y cfg ->
   neighbor_index cfg 0 y (-1, 0) = Ok (n_cells_x cfg - 1, y) /\
   neighbor_index cfg (n_cells_x cfg - 1) y (1, 0) = Ok (0, y)) /\
  (0 <= x < n_cells_x cfg ->
   neighbor_index cfg x 0 (0, -1) = Ok (x, n_cells_y cfg - 1) /\
   neighbor_index cfg x (n_cells_y cfg - 1) (0, 1) = Ok (x, 0)) /\
  neighbor_index cfg 0 0 (-1, -1) = Ok (n_cells_x cfg - 1, n_cells_y cfg - 1) /\
  neighbor_index cfg (n_cells_x cfg - 1) (n_cells_y cfg - 1) (1, 1) = Ok (0, 0) /\
  (binary a -> 0 <= y < n_cells_y cfg ->
   cell a (n_cells_x cfg - 1) y = 1 ->
   exists n, _count_neighbors cfg self 0 y h = (Ok n, h) /\ 1 <= n) /\
  (exists vals,
     Forall2 (fun o v =>
                0 <= (x + fst o) mod W < Z.of_nat (dim0 a) /\
                0 <= (y + snd o) mod H < Z.of_nat (dim1 a) /\
                ndarray_getitem (state self) ((x + fst o) mod W) ((y + snd o) mod H) h
                = (Ok v, h))
             offsets vals /\
     _count_neighbors cfg self x y h = (Ok (py_sum vals), h)) /\
  _count_neighbors cfg self x y h =
  (Ok (py_sum [cell a ((x - 1) mod W) ((y - 1) mod H);
               cell a ((x - 1) mod W) (y mod H);
               cell a ((x - 1) mod W) ((y + 1) mod H);
               cell a (x mod W) ((y - 1) mod H);
               cell a (x mod W) ((y + 1) mod H);
               cell a ((x + 1) mod W) ((y - 1) mod H);
               cell a ((x + 1) mod W) (y mod H);
               cell a ((x + 1) mod W) ((y + 1) mod H)]), h) /\
  (0 <= y < H ->
   _count_neighbors cfg self 0 y h =
   (Ok (py_sum [cell a (W - 1) ((y - 1) mod H);
                cell a (W - 1) y;
                cell a (W - 1) ((y + 1) mod H);
                cell a 0 ((y - 1) mod H);
                cell a 0 ((y + 1) mod H);
                cell a (1 mod W) ((y - 1) mod H);
                cell a (1 mod W) y;
                cell a (1 mod W) ((y + 1) mod H)]), h) /\
   _count_neighbors cfg self (W - 1) y h =
   (Ok (py_sum [cell a ((W - 2) mod W) ((y - 1) mod H);
                cell a ((W - 2) mod W) y;
                cell a ((W - 2) mod W) ((y + 1) mod H);
                cell a (W - 1) ((y - 1) mod H);
                cell a (W - 1) ((y + 1) mod H);
                cell a 0 ((y - 1) mod H);
                cell a 0 y;
                cell a 0 ((y + 1) mod H)]), h)) /\
  (0 <= x < W ->
   _count_neighbors cfg self x 0 h =
   (Ok (py_sum [cell a ((x - 1) mod W) (H - 1);
                cell a ((x - 1) mod W) 0;
                cell a ((x - 1) mod W) (1 mod H);
                cell a x (H - 1);
                cell a x (1 mod H);
                cell a ((x + 1) mod W) (H - 1);
                cell a ((x + 1) mod W) 0;
                cell a ((x + 1) mod W) (1 mod H)]), h) /\
   _count_neighbors cfg self x (H - 1) h =
   (Ok (py_sum [cell a ((x - 1) mod W) ((H - 2) mod H);
                cell a ((x - 1) mod W) (H - 1);
                cell a ((x - 1) mod W) 0;
                cell a x ((H - 2) mod H);
                cell a x 0;
                cell a ((x + 1) mod W) ((H - 2) mod H);
                cell a ((x + 1) mod W) (H - 1);
                cell a ((x + 1) mod W) 0]), h)) /\
  _count_neighbors cfg self 0 0 h =
  (Ok (py_sum [cell a (W - 1) (H - 1);
               cell a (W - 1) 0;
               cell a (W - 1) (1 mod H);
               cell a 0 (H - 1);
               cell a 0 (1 mod H);
               cell a (1 mod W) (H - 1);
               cell a (1 mod W) 0;
               cell a (1 mod W) (1 mod H)]), h).
Proof.
  intros Hx Hy Hl Hfa W H. pose proof Hfa as (Hwf & H0 & H1).
  assert (Hwrap_lo : forall m, 0 < m -> (0 + -1) mod m = m - 1).
  { intros m Hm. exact (wrap_low m Hm). }
  assert (Hwrap_hi : forall m, 0 < m -> (m - 1 + 1) mod m = 0).
  { intros m Hm. exact (wrap_high m Hm). }
  split.
  { intros o _. rewrite (neighbor_index_run cfg Hx Hy).
    pose proof (Z.mod_pos_bound (x + fst o) (n_cells_x cfg) Hx).
    pose proof (Z.mod_pos_bound (y + snd o) (n_cells_y cfg) Hy).
    eexists _, _, _. split; [reflexivity|]. split; [reflexivity|].
    split; [reflexivity|]. split; [lia|]. split; [lia|].
    rewrite (getitem_run h _ a) by exact Hl.
    rewrite arr_get_cell by (try assumption; lia). reflexivity. }
  split.
  { eexists. exact (count_neighbors_run cfg Hx Hy h self a x y Hl Hfa). }
  split.
  { intros Hyr. rewrite !(neighbor_index_run cfg Hx Hy). cbn [fst snd].
    rewrite Hwrap_lo, Hwrap_hi by assumption.
    rewrite Z.add_0_r, Z.mod_small by lia. split; reflexivity. }
  split.
  { intros Hxr. rewrite !(neighbor_index_run cfg Hx Hy). cbn [fst snd].
    rewrite Hwrap_lo, Hwrap_hi by assumption.
    rewrite Z.add_0_r, Z.mod_small by lia. split; reflexivity. }
  split.
  { rewrite (neighbor_index_run cfg Hx Hy). cbn [fst snd].
    rewrite !Hwrap_lo by assumption. reflexivity. }
  split.
  { rewrite (neighbor_index_run cfg Hx Hy). cbn [fst snd].
    rewrite !Hwrap_hi by assumption. reflexivity. }
  split.
  { intros Hbin Hyr Hcell.
    exists (neighbor_sum cfg a 0 y).
    split; [exact (count_neighbors_run cfg Hx Hy h self a 0 y Hl Hfa)|].
    destruct (neighbor_sum_binary cfg a 0 y Hx Hy Hfa Hbin) as [Hsum _].
    rewrite Hsum. unfold live_neighbors.
    change (0 - 1) with (0 + -1). rewrite (Hwrap_lo _ Hx).
    rewrite (Z.mod_small y) by lia. rewrite Hcell.
    assert (Hbit : forall i j, 0 <= cell a (i mod n_cells_x cfg) (j mod n_cells_y cfg)).
    { intros i j.
      pose proof (Z.mod_pos_bound i (n_cells_x cfg) Hx).
      pose proof (Z.mod_pos_bound j (n_cells_y cfg) Hy).
      destruct (binary_cell a (i mod n_cells_x cfg) (j mod n_cells_y cfg) Hwf Hbin);
        lia. }
    pose proof (Hbit (-1) (y - 1)) as B1. pose proof (Hbit (-1) (y + 1)) as B2.
    pose proof (Hbit 0 (y - 1)) as B3. pose proof (Hbit 0 (y + 1)) as B4.
    pose proof (Hbit (0 + 1) (y - 1)) as B5. pose proof (Hbit (0 + 1) y) as B6.
    pose proof (Hbit (0 + 1) (y + 1)) as B7.
    rewrite (Z.mod_small y) in B6 by lia.
    replace ((-1) mod n_cells_x cfg) with (n_cells_x cfg - 1) in B1, B2
      by (rewrite <- (Hwrap_lo _ Hx); reflexivity).
    lia. }
  split.
  { exists (neighbor_cells cfg a x y). split.
    - unfold neighbor_cells. apply Forall2_fmap_r, Forall_Forall2_diag, Forall_forall.
      intros o _.
      pose proof (Z.mod_pos_bound (x + fst o) (n_cells_x cfg) Hx).
      pose proof (Z.mod_pos_bound (y + snd o) (n_cells_y cfg) Hy).
      subst W H. split; [lia|]. split; [lia|].
      rewrite (getitem_run h _ a) by exact Hl.
      rewrite arr_get_cell by (try assumption; lia). reflexivity.
    - rewrite (count_neighbors_run cfg Hx Hy h self a x y Hl Hfa).
      unfold neighbor_sum. reflexivity. }
  subst W H.
  split; [exact (count_neighbors_cells cfg h self a x y Hx Hy Hl Hfa)|].
  split.
  { intros Hyr. split.
    - rewrite (count_neighbors_cells cfg h self a 0 y Hx Hy Hl Hfa).
      rewrite (wrap_low _ Hx), (Z.mod_0_l (n_cells_x cfg)) by lia.
      rewrite (Z.mod_small y) by lia. reflexivity.
    - rewrite (count_neighbors_cells cfg h self a (n_cells_x cfg - 1) y Hx Hy Hl Hfa).
      rewrite (wrap_high _ Hx), (Z.mod_small (n_cells_x cfg - 1)) by lia.
      rewrite (Z.mod_small y) by lia.
      replace (n_cells_x cfg - 1 - 1) with (n_cells_x cfg - 2) by lia. reflexivity. }
  split.
  { intros Hxr. split.
    - rewrite (count_neighbors_cells cfg h self a x 0 Hx Hy Hl Hfa).
      rewrite (wrap_low _ Hy), (Z.mod_0_l (n_cells_y cfg)) by lia.
      rewrite (Z.mod_small x) by lia. reflexivity.
    - rewrite (count_neighbors_cells cfg h self a x (n_cells_y cfg - 1) Hx Hy Hl Hfa).
      rewrite (wrap_high _ Hy), (Z.mod_small (n_cells_y cfg - 1)) by lia.
      rewrite (Z.mod_small x) by lia.
      replace (n_cells_y cfg - 1 - 1) with (n_cells_y cfg - 2) by lia. reflexivity. }
  rewrite (count_neighbors_cells cfg h self a 0 0 Hx Hy Hl Hfa).
  rewrite (wrap_low _ Hx), (wrap_low _ Hy).
  rewrite (Z.mod_0_l (n_cells_x cfg)), (Z.mod_0_l (n_cells_y cfg)) by lia.
  reflexivity.
Qed.

Lemma count_neighbors_wraps_witness :
  _count_neighbors config (mk_GameState 0) 0 4 [opposite_edges]
  = (Ok 2, [opposite_edges]).
Proof.
  pose proof (count_neighbors_wraps config [opposite_edges] (mk_GameState 0)
                opposite_edges 0 4) as Hwrap.
  destruct Hwrap as (_ & _ & _ & _ & _ & _ & _ & _ & _ & Hedge & _).
  - simpl; lia.
  - simpl; lia.
  - reflexivity.
  - by_decide.
  - destruct Hedge as [Hfirst _]; [simpl; lia|].
    rewrite Hfirst. vm_compute. reflexivity.
Defined.

(** C4: for every grid of ALIVE and DEAD cells and every cell [(x, y)],
    [_count_neighbors] returns the sum of the 1/0 values at the eight Moore
    neighbours of the cell on the torus, the cell itself left out, and the
    sum lies between 0 and 8. *)
Theorem count_neighbors_sum
        (cfg : GameConfig) (h : heap) (self : GameState) (a : ndarray) (x y : Z) :
  0 < n_cells_x cfg -> 0 < n_cells_y cfg ->
  h !! state self = Some a -> fits cfg a -> binary a ->
  exists n,
    _count_neighbors cfg self x y h = (Ok n, h) /\
    n = cell a ((x - 1) mod n_cells_x cfg) ((y - 1) mod n_cells_y cfg)
        + cell a ((x - 1) mod n_cells_x cfg) (y mod n_cells_y cfg)
        + cell a ((x - 1) mod n_cells_x cfg) ((y + 1) mod n_cells_y cfg)
        + cell a (x mod n_cells_x cfg) ((y - 1) mod n_cells_y cfg)
        + cell a (x mod n_cells_x cfg) ((y + 1) mod n_cells_y cfg)
        + cell a ((x + 1) mod n_cells_x cfg) ((y - 1) mod n_cells_y cfg)
        + cell a ((x + 1) mod n_cells_x cfg) (y mod n_cells_y cfg)
        + cell a ((x + 1) mod n_cells_x cfg) ((y + 1) mod n_cells_y cfg) /\
    0 <= n <= 8.
Proof.
  intros Hx Hy Hl Hfa Hbin.
  exists (neighbor_sum cfg a x y).
  split; [exact (count_neighbors_run cfg Hx Hy h self a x y Hl Hfa)|].
  destruct (neighbor_sum_binary cfg a x y Hx Hy Hfa Hbin) as [Hsum Hbound].
  split; [exact Hsum | exact Hbound].
Qed.

Lemma count_neighbors_sum_witness :
  exists n,
    _count_neighbors config (mk_GameState 0) 1 1 [glider] = (Ok n, [glider]) /\
    n = cell glider ((1 - 1) mod 40) ((1 - 1) mod 30)
        + cell glider ((1 - 1) mod 40) (1 mod 30)
        + cell glider ((1 - 1) mod 40) ((1 + 1) mod 30)
        + cell glider (1 mod 40) ((1 - 1) mod 30)
        + cell glider (1 mod 40) ((1 + 1) mod 30)
        + cell glider ((1 + 1) mod 40) ((1 - 1) mod 30)
        + cell glider ((1 + 1) mod 40) (1 mod 30)
        + cell glider ((1 + 1) mod 40) ((1 + 1) mod 30) /\
    0 <= n <= 8.
Proof.
  apply (count_neighbors_sum config [glider] (mk_GameState 0) glider 1 1).
  - simpl; lia.
  - simpl; lia.
  - reflexivity.
  - by_decide.
  - by_decide.
Defined.

(** C6: the dimensions of the grid are fixed at construction and no
    sequence of [next_generation] calls changes them: the array
    [GameState.__init__] builds has the shape the configuration gives
    (40 by 30 in the program), and after any number of calls the state array
    has the shape it had before them. *)
Theorem dimensions_fixed (cfg : GameConfig) :
  0 < n_cells_x cfg -> 0 < n_cells_y cfg ->
  (forall draw h,
     exists a0,
       GameState_init cfg draw h = (Ok (mk_GameState (length h)), h ++ [a0]) /\
       shape a0 = (Z.to_nat (n_cells_x cfg), Z.to_nat (n_cells_y cfg)) /\
       forall n, exists self' h' a',
         advance cfg n (mk_GameState (length h)) (h ++ [a0]) = (Ok self', h') /\
         h' !! state self' = Some a' /\ shape a' = shape a0) /\
  (forall n h self a,
     h !! state self = Some a -> fits cfg a ->
     exists self' h' a',
       advance cfg n self h = (Ok self', h') /\
       h' !! state self' = Some a' /\ wf_array a' /\ shape a' = shape a).
Proof.
  intros Hx Hy.
  assert (Hadv : forall n h self a,
             h !! state self = Some a -> fits cfg a ->
             exists self' h' a',
               advance cfg n self h = (Ok self', h') /\
               h' !! state self' = Some a' /\ wf_array a' /\ shape a' = shape a).
  { intros n h self a Hl Hfa.
    destruct (advance_run cfg n Hx Hy h self a Hl Hfa)
      as (self' & h' & Hrun & Hl' & Hf' & _).
    exists self', h', (Nat.iter n (next_array cfg) a).
    split; [exact Hrun|]. split; [exact Hl'|].
    destruct Hfa as (_ & Ha0 & Ha1), Hf' as (Hwf' & Hb0 & Hb1).
    split; [exact Hwf'|]. unfold shape. f_equal; lia. }
  split; [|exact Hadv].
  intros draw h.
  destruct (GameState_init_run cfg draw h) as (a0 & Hinit & Hf0 & _ & Hshape);
    [lia | lia |].
  exists a0. split; [exact Hinit|]. split; [exact Hshape|].
  intros n.
  destruct (Hadv n (h ++ [a0]) (mk_GameState (length h)) a0)
    as (self' & h' & a' & Hrun & Hl' & _ & Hs').
  { simpl. rewrite lookup_app_r by lia. rewrite Nat.sub_diag. reflexivity. }
  { exact Hf0. }
  exists self', h', a'. auto.
Qed.

Lemma dimensions_fixed_witness :
  (forall draw h,
     exists a0,
       GameState_init config draw h = (Ok (mk_GameState (length h)), h ++ [a0]) /\
       shape a0 = (40%nat, 30%nat) /\
       forall n, exists self' h' a',
         advance config n (mk_GameState (length h)) (h ++ [a0]) = (Ok self', h') /\
         h' !! state self' = Some a' /\ shape a' = shape a0) /\
  (forall n h self a,
     h !! state self = Some a -> fits config a ->
     exists self' h' a',
       advance config n self h = (Ok self', h') /\
       h' !! state self' = Some a' /\ wf_array a' /\ shape a' = shape a).
Proof.
  apply (dimensions_fixed config).
  - simpl; lia.
  - simpl; lia.
Defined.

(** C7: on a torus of at least 4 by 3 cells, a grid whose only ALIVE cells
    are the three cells of a horizontal blinker becomes, by one call of
    [next_generation], the grid whose only ALIVE cells are the three cells of
    the vertical blinker with the same centre. *)
Theorem blinker_oscillates
        (cfg : GameConfig) (h : heap) (self : GameState) (cx cy : Z) :
  4 <= n_cells_x cfg -> 3 <= n_cells_y cfg ->
  0 <= cx < n_cells_x cfg -> 0 <= cy < n_cells_y cfg ->
  h !! state self = Some (blinker_horizontal cfg cx cy) ->
  exists self' h',
    next_generation cfg self h = (Ok self', h') /\
    h' !! state self' = Some (blinker_vertical cfg cx cy).
Proof.
  intros Hw Hh Hcx Hcy Hl.
  exists (mk_GameState (length h)), (h ++ [blinker_vertical cfg cx cy]). split.
  - rewrite (next_generation_run cfg ltac:(lia) ltac:(lia) h self _ Hl)
      by (apply fits_tabulate; lia).
    rewrite next_array_blinker by assumption. reflexivity.
  - simpl. rewrite lookup_app_r by lia. rewrite Nat.sub_diag. reflexivity.
Qed.

Lemma blinker_oscillates_witness :
  exists self' h',
    next_generation config (mk_GameState 0) [blinker_horizontal config 0 0]
    = (Ok self', h') /\
    h' !! state self' = Some (blinker_vertical config 0 0).
Proof.
  apply (blinker_oscillates config [blinker_horizontal config 0 0] (mk_GameState 0) 0 0).
  - simpl; lia.
  - simpl; lia.
  - simpl; lia.
  - simpl; lia.
  - reflexivity.
Defined.

(** C8: on a torus of at least 3 by 3 cells, so that a DEAD column and a
    DEAD row border the block, a grid whose only ALIVE cells form a 2 by 2
    block is a fixed point of [next_generation]: after any number of calls
    the state array is the same grid. *)
Theorem block_still_life
        (cfg : GameConfig) (h : heap) (self : GameState) (px py : Z) (n : nat) :
  3 <= n_cells_x cfg -> 3 <= n_cells_y cfg ->
  0 <= px < n_cells_x cfg -> 0 <= py < n_cells_y cfg ->
  h !! state self = Some (block cfg px py) ->
  exists self' h',
    advance cfg n self h = (Ok self', h') /\
    h' !! state self' = Some (block cfg px py).
Proof.
  intros Hw Hh Hpx Hpy Hl.
  destruct (advance_run cfg n ltac:(lia) ltac:(lia) h self _ Hl)
    as (self' & h' & Hrun & Hl' & _); [apply fits_tabulate; lia|].
  exists self', h'. split; [exact Hrun|]. rewrite Hl'. f_equal.
  clear Hrun Hl'. induction n as [| n IH]; [reflexivity|].
  simpl. rewrite IH. apply next_array_block; assumption.
Qed.

Lemma block_still_life_witness :
  exists self' h',
    advance config 5 (mk_GameState 0) [block config 39 29] = (Ok self', h') /\
    h' !! state self' = Some (block config 39 29).
Proof.
  apply (block_still_life config [block config 39 29] (mk_GameState 0) 39 29 5).
  - simpl; lia.
  - simpl; lia.
  - simpl; lia.
  - simpl; lia.
  - reflexivity.
Defined.

(** C9: [next_generation] and [_count_neighbors] are deterministic: two runs
    that start from equal grids, wherever the arrays are in the two heaps,
    return equal counts at every index and leave equal grids. *)
Theorem next_generation_deterministic
        (cfg : GameConfig) (h1 h2 : heap) (s1 s2 : GameState) (a : ndarray) :
  0 < n_cells_x cfg -> 0 < n_cells_y cfg -> fits cfg a ->
  h1 !! state s1 = Some a -> h2 !! state s2 = Some a ->
  (forall x y,
     exists n,
       _count_neighbors cfg s1 x y h1 = (Ok n, h1) /\
       _count_neighbors cfg s2 x y h2 = (Ok n, h2)) /\
  (exists s1' h1' s2' h2' a',
     next_generation cfg s1 h1 = (Ok s1', h1') /\
     next_generation cfg s2 h2 = (Ok s2', h2') /\
     h1' !! state s1' = Some a' /\ h2' !! state s2' = Some a') /\
  (forall n,
     exists s1' h1' s2' h2' a',
       advance cfg n s1 h1 = (Ok s1', h1') /\
       advance cfg n s2 h2 = (Ok s2', h2') /\
       h1' !! state s1' = Some a' /\ h2' !! state s2' = Some a').
Proof.
  intros Hx Hy Hfa Hl1 Hl2. split; [|split].
  - intros x y. exists (neighbor_sum cfg a x y). split.
    + exact (count_neighbors_run cfg Hx Hy h1 s1 a x y Hl1 Hfa).
    + exact (count_neighbors_run cfg Hx Hy h2 s2 a x y Hl2 Hfa).
  - exists (mk_GameState (length h1)), (h1 ++ [next_array cfg a]),
      (mk_GameState (length h2)), (h2 ++ [next_array cfg a]), (next_array cfg a).
    split; [exact (next_generation_run cfg Hx Hy h1 s1 a Hl1 Hfa)|].
    split; [exact (next_generation_run cfg Hx Hy h2 s2 a Hl2 Hfa)|].
    split; simpl; rewrite lookup_app_r by lia; rewrite Nat.sub_diag; reflexivity.
  - intros n.
    destruct (advance_run cfg n Hx Hy h1 s1 a Hl1 Hfa) as (s1' & h1' & Hr1 & Hl1' & _).
    destruct (advance_run cfg n Hx Hy h2 s2 a Hl2 Hfa) as (s2' & h2' & Hr2 & Hl2' & _).
    exists s1', h1', s2', h2', (Nat.iter n (next_array cfg) a). auto.
Qed.

Lemma next_generation_deterministic_witness :
  (forall x y,
     exists n,
       _count_neighbors config (mk_GameState 0) x y [glider] = (Ok n, [glider]) /\
       _count_neighbors config (mk_GameState 1) x y [opposite_edges; glider]
       = (Ok n, [opposite_edges; glider])) /\
  (exists s1' h1' s2' h2' a',
     next_generation config (mk_GameState 0) [glider] = (Ok s1', h1') /\
     next_generation config (mk_GameState 1) [opposite_edges; glider] = (Ok s2', h2') /\
     h1' !! state s1' = Some a' /\ h2' !! state s2' = Some a') /\
  (forall n,
     exists s1' h1' s2' h2' a',
       advance config n (mk_GameState 0) [glider] = (Ok s1', h1') /\
       advance config n (mk_GameState 1) [opposite_edges; glider] = (Ok s2', h2') /\
       h1' !! state s1' = Some a' /\ h2' !! state s2' = Some a').
Proof.
  apply (next_generation_deterministic config [glider] [opposite_edges; glider]
           (mk_GameState 0) (mk_GameState 1) glider).
  - simpl; lia.
  - simpl; lia.
  - by_decide.
  - reflexivity.
  - reflexivity.
Defined.

(** C10: [GameConfig] is a singleton.  From any state of the class,
    [get_instance] returns an instance and every later call returns the same
    one and changes nothing; once an instance exists, [get_instance] returns
    it, and the direct construction [GameConfig()] raises the exception of
    the class, leaving the instance, its attributes and every earlier object
    as they were. *)
Theorem GameConfig_singleton (c : Singleton.ClassState) :
  (exists l c1,
     Singleton.get_instance c = (Ok (Some l), c1) /\
     Singleton._instance c1 = Some l /\
     Singleton.get_instance c1 = (Ok (Some l), c1)) /\
  (forall l,
     Singleton._instance c = Some l ->
     Singleton.get_instance c = (Ok (Some l), c) /\
     exists c',
       Singleton.GameConfig_call c
       = (Raise (Exception "This class is a singleton!"), c') /\
       Singleton._instance c' = Some l /\
       Singleton.attrs c' l = Singleton.attrs c l /\
       (forall l' o, Singleton.objects c !! l' = Some o ->
                     Singleton.objects c' !! l' = Some o) /\
       Singleton.get_instance c' = (Ok (Some l), c')).
Proof.
  assert (Hget : forall c0 l, Singleton._instance c0 = Some l ->
                              Singleton.get_instance c0 = (Ok (Some l), c0)).
  { intros c0 l Hl. unfold Singleton.get_instance. rewrite Hl. unfold ret.
    cbv beta iota. rewrite Hl. reflexivity. }
  split.
  - destruct (Singleton._instance c) as [l |] eqn:Hinst.
    + exists l, c. rewrite (Hget c l Hinst). auto.
    + eexists _, _. split.
      * unfold Singleton.get_instance, Singleton.GameConfig_call, Singleton.__init__,
          bind, ret.
        rewrite Hinst. cbn. rewrite Hinst. reflexivity.
      * split; [reflexivity|]. apply Hget. reflexivity.
  - intros l Hinst. split; [exact (Hget c l Hinst)|].
    exists (Singleton.mk_ClassState (Some l) (Singleton.objects c ++ [None])).
    split.
    { unfold Singleton.GameConfig_call, Singleton.__init__. cbn.
      rewrite Hinst. reflexivity. }
    split; [reflexivity|]. split.
    { unfold Singleton.attrs. cbn.
      destruct (Singleton.objects c !! l) as [o |] eqn:Hobj.
      - rewrite (lookup_app_l_Some _ _ _ _ Hobj). reflexivity.
      - apply lookup_ge_None_1 in Hobj.
        destruct (decide (l = length (Singleton.objects c))) as [-> | Hne].
        + rewrite lookup_app_r by lia. rewrite Nat.sub_diag. reflexivity.
        + rewrite lookup_ge_None_2; [reflexivity|].
          rewrite length_app. simpl. lia. }
    split.
    { intros l' o Hobj. cbn. apply lookup_app_l_Some. exact Hobj. }
    apply Hget. reflexivity.
Qed.

Lemma GameConfig_singleton_witness :
  Singleton.get_instance
    (Singleton.mk_ClassState (Some 0%nat) [Some config]) =
    (Ok (Some 0%nat), Singleton.mk_ClassState (Some 0%nat) [Some config]) /\
  exists c',
    Singleton.GameConfig_call (Singleton.mk_ClassState (Some 0%nat) [Some config])
    = (Raise (Exception "This class is a singleton!"), c') /\
    Singleton._instance c' = Some 0%nat /\
    Singleton.attrs c' 0 = Some config.
Proof.
  destruct (GameConfig_singleton (Singleton.mk_ClassState (Some 0%nat) [Some config]))
    as [_ Hexists].
  destruct (Hexists 0%nat eq_refl) as (Hget & c' & Hcall & Hinst & Hattrs & _).
  split; [exact Hget|].
  exists c'. split; [exact Hcall|]. split; [exact Hinst|].
  rewrite Hattrs. reflexivity.
Defined.


(** * Further properties of the grid model *)

Lemma lookup_snoc (h : list ndarray) (a : ndarray) : (h ++ [a]) !! length h = Some a.
Proof. rewrite lookup_app_r by lia. rewrite Nat.sub_diag. reflexivity. Qed.

Lemma tabulate_cells (a : ndarray) :
  wf_array a -> a = tabulate (dim0 a) (dim1 a) (cell a).
Proof.
  intros Hwf. apply arr_ext; try reflexivity; try assumption.
  - apply wf_tabulate.
  - intros x y Hx Hy. rewrite cell_tabulate by assumption. reflexivity.
Qed.

Lemma fits_dims (cfg : GameConfig) (a : ndarray) :
  fits cfg a ->
  dim0 a = Z.to_nat (n_cells_x cfg) /\ dim1 a = Z.to_nat (n_cells_y cfg).
Proof. intros (_ & H0 & H1). lia. Qed.

(** The array [next_generation] builds from a grid of 0/1 cells, as a table
    of the transition on the function of its cells. *)
Lemma next_array_life (cfg : GameConfig) (a : ndarray) :
  0 < n_cells_x cfg -> 0 < n_cells_y cfg -> fits cfg a -> binary a ->
  next_array cfg a =
  tabulate (Z.to_nat (n_cells_x cfg)) (Z.to_nat (n_cells_y cfg))
    (life (n_cells_x cfg) (n_cells_y cfg) (cell a)).
Proof.
  intros Hx Hy Hfa Hbin.
  rewrite (next_array_reference cfg a Hx Hy Hfa Hbin).
  destruct (fits_dims cfg a Hfa) as [Hd0 Hd1].
  rewrite (tabulate_cells a (proj1 Hfa)) at 1. rewrite Hd0, Hd1.
  apply reference_step_tabulate; assumption.
Qed.

Lemma iter_fixed {A} (f : A -> A) (a : A) (n : nat) : f a = a -> Nat.iter n f a = a.
Proof. intros Hf. induction n as [| n IH]; simpl; congruence. Qed.

Lemma next_array_dead (cfg : GameConfig) :
  0 < n_cells_x cfg -> 0 < n_cells_y cfg ->
  next_array cfg (dead_grid cfg) = dead_grid cfg.
Proof.
  intros Hx Hy. unfold dead_grid.
  rewrite next_array_life;
    [| exact Hx | exact Hy | apply fits_tabulate; lia
     | apply binary_tabulate; intros; left; reflexivity].
  apply tabulate_ext. intros x y Hxr Hyr. rewrite !Z2Nat.id in * by lia.
  unfold life, moore_sum.
  pose proof (Z.mod_pos_bound (x - 1) _ Hx). pose proof (Z.mod_pos_bound x _ Hx).
  pose proof (Z.mod_pos_bound (x + 1) _ Hx).
  pose proof (Z.mod_pos_bound (y - 1) _ Hy). pose proof (Z.mod_pos_bound y _ Hy).
  pose proof (Z.mod_pos_bound (y + 1) _ Hy).
  rewrite !cell_tabulate by lia. reflexivity.
Qed.

(** X1: a grid whose cells are all DEAD stays all DEAD: on any torus, after
    any number of calls of [next_generation] the state array is the all-DEAD
    grid again. *)
Theorem dead_grid_stays_dead
        (cfg : GameConfig) (h : heap) (self : GameState) (n : nat) :
  0 < n_cells_x cfg -> 0 < n_cells_y cfg ->
  h !! state self = Some (dead_grid cfg) ->
  exists self' h',
    advance cfg n self h = (Ok self', h') /\
    h' !! state self' = Some (dead_grid cfg).
Proof.
  intros Hx Hy Hl.
  destruct (advance_run cfg n Hx Hy h self _ Hl) as (self' & h' & Hrun & Hl' & _);
    [apply fits_tabulate; lia|].
  exists self', h'. split; [exact Hrun|]. rewrite Hl'. f_equal.
  apply iter_fixed, next_array_dead; assumption.
Qed.

Lemma dead_grid_stays_dead_witness :
  exists self' h',
    advance config 7 (mk_GameState 0) [dead_grid config] = (Ok self', h') /\
    h' !! state self' = Some (dead_grid config).
Proof.
  apply (dead_grid_stays_dead config [dead_grid config] (mk_GameState 0) 7).
  - simpl; lia.
  - simpl; lia.
  - reflexivity.
Defined.

Lemma fits_roll (cfg : GameConfig) (dx dy : Z) (a : ndarray) :
  fits cfg a -> fits cfg (roll cfg dx dy a).
Proof. intros (_ & H0 & H1). split; [apply wf_tabulate | simpl; lia]. Qed.

Lemma cell_roll (cfg : GameConfig) (dx dy : Z) (a : ndarray) (x y : Z) :
  fits cfg a -> 0 <= x < n_cells_x cfg -> 0 <= y < n_cells_y cfg ->
  cell (roll cfg dx dy a) x y
  = shift (n_cells_x cfg) (n_cells_y cfg) dx dy (cell a) x y.
Proof.
  intros (_ & H0 & H1) Hx Hy. unfold roll. apply cell_tabulate; lia.
Qed.

Lemma binary_roll (cfg : GameConfig) (dx dy : Z) (a : ndarray) :
  0 < n_cells_x cfg -> 0 < n_cells_y cfg -> fits cfg a -> binary a ->
  binary (roll cfg dx dy a).
Proof.
  intros Hx Hy (Hwf & H0 & H1) Hbin. apply binary_tabulate. intros x y _ _.
  unfold shift. apply binary_cell; try assumption.
  - rewrite H0. apply Z.mod_pos_bound. exact Hx.
  - rewrite H1. apply Z.mod_pos_bound. exact Hy.
Qed.

Lemma next_array_roll (cfg : GameConfig) (dx dy : Z) (a : ndarray) :
  0 < n_cells_x cfg -> 0 < n_cells_y cfg -> fits cfg a -> binary a ->
  next_array cfg (roll cfg dx dy a) = roll cfg dx dy (next_array cfg a).
Proof.
  intros Hx Hy Hfa Hbin.
  destruct (fits_dims cfg a Hfa) as [Hd0 Hd1].
  rewrite (next_array_life cfg (roll cfg dx dy a) Hx Hy)
    by (try apply fits_roll; try apply binary_roll; assumption).
  unfold roll at 2. cbn [next_array dim0 dim1 tabulate]. rewrite Hd0, Hd1.
  apply tabulate_ext. intros x y Hxr Hyr. rewrite !Z2Nat.id in * by lia.
  rewrite (life_ext _ _ _ (shift (n_cells_x cfg) (n_cells_y cfg) dx dy (cell a))
             x y Hx Hy Hxr Hyr)
    by (intros x' y' Hx' Hy'; apply cell_roll; assumption).
  rewrite life_shift. unfold shift.
  fold (next_array cfg a). rewrite (next_array_life cfg a Hx Hy Hfa Hbin).
  rewrite cell_tabulate; [reflexivity | |];
    rewrite Z2Nat.id by lia; apply Z.mod_pos_bound; assumption.
Qed.

(** X2: the transition commutes with the translations of the torus: from a
    grid moved by [dx] columns and [dy] rows, [next_generation] computes the
    next generation of the original grid moved in the same way. *)
Theorem next_generation_commutes_with_roll
        (cfg : GameConfig) (h1 h2 : heap) (s1 s2 : GameState)
        (a : ndarray) (dx dy : Z) :
  0 < n_cells_x cfg -> 0 < n_cells_y cfg -> fits cfg a -> binary a ->
  h1 !! state s1 = Some a -> h2 !! state s2 = Some (roll cfg dx dy a) ->
  exists s1' h1' s2' h2' a',
    next_generation cfg s1 h1 = (Ok s1', h1') /\
    next_generation cfg s2 h2 = (Ok s2', h2') /\
    h1' !! state s1' = Some a' /\
    h2' !! state s2' = Some (roll cfg dx dy a').
Proof.
  intros Hx Hy Hfa Hbin Hl1 Hl2.
  exists (mk_GameState (length h1)), (h1 ++ [next_array cfg a]),
    (mk_GameState (length h2)), (h2 ++ [next_array cfg (roll cfg dx dy a)]),
    (next_array cfg a).
  split; [exact (next_generation_run cfg Hx Hy h1 s1 a Hl1 Hfa)|].
  split; [exact (next_generation_run cfg Hx Hy h2 s2 _ Hl2 (fits_roll cfg dx dy a Hfa))|].
  split; [apply lookup_snoc|]. simpl.
  rewrite (next_array_roll cfg dx dy a Hx Hy Hfa Hbin). apply lookup_snoc.
Qed.

Lemma next_generation_commutes_with_roll_witness :
  exists s1' h1' s2' h2' a',
    next_generation config (mk_GameState 0) [glider] = (Ok s1', h1') /\
    next_generation config (mk_GameState 0) [roll config 38 (-3) glider]
    = (Ok s2', h2') /\
    h1' !! state s1' = Some a' /\
    h2' !! state s2' = Some (roll config 38 (-3) a').
Proof.
  apply (next_generation_commutes_with_roll config [glider]
           [roll config 38 (-3) glider] (mk_GameState 0) (mk_GameState 0)
           glider 38 (-3)).
  - simpl; lia.
  - simpl; lia.
  - by_decide.
  - by_decide.
  - reflexivity.
  - reflexivity.
Defined.

(** [n] calls of [next_generation] only add arrays to the heap, and after at
    least one call the state refers to the array added last. *)
Lemma advance_allocates (cfg : GameConfig) (n : nat) :
  0 < n_cells_x cfg -> 0 < n_cells_y cfg ->
  forall (h : heap) (self : GameState) (a : ndarray),
    h !! state self = Some a -> fits cfg a ->
    exists self' history,
      advance cfg n self h = (Ok self', h ++ history) /\
      state self' = match n with
                    | O => state self
                    | S k => (length h + k)%nat
                    end.
Proof.
  intros Hx Hy. induction n as [| n IH]; intros h self a Hl Hfa.
  - exists self, []. rewrite app_nil_r. split; reflexivity.
  - simpl advance. unfold bind.
    rewrite (next_generation_run cfg Hx Hy h self a Hl Hfa).
    destruct (IH (h ++ [next_array cfg a]) (mk_GameState (length h)) (next_array cfg a))
      as (self' & history & Hrun & Hstate).
    { apply lookup_snoc. }
    { apply fits_next_array, Hfa. }
    exists self', (next_array cfg a :: history).
    rewrite <- app_assoc in Hrun. simpl in Hrun.
    split; [exact Hrun|]. rewrite Hstate.
    destruct n as [| k]; [simpl; lia|]. rewrite length_app. simpl. lia.
Qed.

(** X4: [next_generation] writes only into the copy it makes.  Through a
    reference to an array taken before [n] calls, whichever object holds it,
    every subscript returns after the calls what it returned before them
    (the cell, or the [IndexError]); this holds of the array the state
    referred to before the calls too, which still reads as the grid before
    them while the state reads as its [n]-th generation; and after at least
    one call the state refers to none of the arrays there were before. *)
Theorem earlier_arrays_read_the_same
        (cfg : GameConfig) (n : nat) (h : heap) (self : GameState) (a : ndarray) :
  0 < n_cells_x cfg -> 0 < n_cells_y cfg ->
  h !! state self = Some a -> fits cfg a ->
  exists self' h',
    advance cfg n self h = (Ok self', h') /\
    (forall l b i j,
       h !! l = Some b ->
       ndarray_getitem l i j h = (arr_get b i j, h) /\
       ndarray_getitem l i j h' = (arr_get b i j, h')) /\
    (forall x y,
       0 <= x < n_cells_x cfg -> 0 <= y < n_cells_y cfg ->
       ndarray_getitem (state self) x y h' = (Ok (cell a x y), h') /\
       ndarray_getitem (state self') x y h'
       = (Ok (cell (Nat.iter n (next_array cfg) a) x y), h')) /\
    (n <> 0%nat -> h !! state self' = None /\ state self' <> state self).
Proof.
  intros Hx Hy Hl Hfa.
  destruct (advance_run cfg n Hx Hy h self a Hl Hfa)
    as (self' & h' & Hrun & Hl' & Hf' & Hkeep).
  destruct (advance_allocates cfg n Hx Hy h self a Hl Hfa)
    as (self2 & history & Hrun2 & Hstate).
  rewrite Hrun in Hrun2. injection Hrun2 as Hself Hheap. subst self2.
  exists self', h'. split; [exact Hrun|]. split; [|split].
  - intros l b i j Hb. split.
    + apply getitem_run. exact Hb.
    + apply getitem_run. apply Hkeep. exact Hb.
  - intros x y Hxr Hyr. split.
    + rewrite (getitem_run h' _ a) by (apply Hkeep; exact Hl).
      destruct Hfa as (Hwf & H0 & H1).
      rewrite arr_get_cell by (try assumption; lia). reflexivity.
    + rewrite (getitem_run h' _ _ x y Hl').
      destruct Hf' as (Hwf & H0 & H1).
      rewrite arr_get_cell by (try assumption; lia). reflexivity.
  - intros Hn. destruct n as [| k]; [congruence|]. rewrite Hstate.
    apply lookup_lt_Some in Hl. split; [|lia].
    apply lookup_ge_None. lia.
Qed.

Lemma earlier_arrays_read_the_same_witness :
  exists self' h',
    advance config 3 (mk_GameState 0) [glider] = (Ok self', h') /\
    (forall l b i j,
       [glider] !! l = Some b ->
       ndarray_getitem l i j [glider] = (arr_get b i j, [glider]) /\
       ndarray_getitem l i j h' = (arr_get b i j, h')) /\
    (forall x y,
       0 <= x < n_cells_x config -> 0 <= y < n_cells_y config ->
       ndarray_getitem 0%nat x y h' = (Ok (cell glider x y), h') /\
       ndarray_getitem (state self') x y h'
       = (Ok (cell (Nat.iter 3 (next_array config) glider) x y), h')) /\
    (3%nat <> 0%nat -> [glider] !! state self' = None /\ state self' <> 0%nat).
Proof.
  apply (earlier_arrays_read_the_same config 3 [glider] (mk_GameState 0) glider).
  - simpl; lia.
  - simpl; lia.
  - reflexivity.
  - by_decide.
Defined.

Lemma wf_iter_next_array (cfg : GameConfig) (a : ndarray) (n : nat) :
  wf_array a -> wf_array (Nat.iter n (next_array cfg) a).
Proof. intros Hwf. destruct n as [| n]; [exact Hwf | apply wf_tabulate]. Qed.

(** X5: the cells stay 0 or 1: from a grid of 0/1 cells of the configured
    shape, any number of calls of [next_generation] leaves a grid of 0/1
    cells of that shape. *)
Theorem cells_stay_binary
        (cfg : GameConfig) (n : nat) (h : heap) (self : GameState) (a : ndarray) :
  0 < n_cells_x cfg -> 0 < n_cells_y cfg ->
  h !! state self = Some a -> fits cfg a -> binary a ->
  exists self' h' a',
    advance cfg n self h = (Ok self', h') /\
    h' !! state self' = Some a' /\ fits cfg a' /\ binary a'.
Proof.
  intros Hx Hy Hl Hfa Hbin.
  destruct (advance_run cfg n Hx Hy h self a Hl Hfa)
    as (self' & h' & Hrun & Hl' & Hf' & _).
  exists self', h', (Nat.iter n (next_array cfg) a).
  split; [exact Hrun|]. split; [exact Hl'|]. split; [exact Hf'|].
  clear Hrun Hl' Hf'. induction n as [| n IH]; [exact Hbin|].
  simpl. apply binary_next_array; [|exact IH].
  apply wf_iter_next_array. exact (proj1 Hfa).
Qed.

Lemma cells_stay_binary_witness :
  exists self' h' a',
    advance config 4 (mk_GameState 0) [glider] = (Ok self', h') /\
    h' !! state self' = Some a' /\ fits config a' /\ binary a'.
Proof.
  apply (cells_stay_binary config 4 [glider] (mk_GameState 0) glider).
  - simpl; lia.
  - simpl; lia.
  - reflexivity.
  - by_decide.
  - by_decide.
Defined.

Lemma mapM_ext {S A B} (f g : A -> M S B) (xs : list A) (s : S) :
  (forall x s', f x s' = g x s') -> mapM f xs s = mapM g xs s.
Proof.
  intros Hfg. revert s. induction xs as [| x xs IH]; intros s; [reflexivity|].
  simpl. unfold bind at 1 3. rewrite Hfg.
  destruct (g x s) as [[v | e] s']; [|reflexivity].
  unfold bind. rewrite IH. reflexivity.
Qed.

Lemma neighbor_index_periodic (cfg : GameConfig) (x y k l : Z) (o : Z * Z) :
  neighbor_index cfg (x + k * n_cells_x cfg) (y + l * n_cells_y cfg) o
  = neighbor_index cfg x y o.
Proof.
  unfold neighbor_index, py_mod.
  destruct (Z.eqb_spec (n_cells_x cfg) 0) as [Hx0 | Hx0]; [reflexivity|].
  destruct (Z.eqb_spec (n_cells_y cfg) 0) as [Hy0 | Hy0]; [reflexivity|].
  replace (x + k * n_cells_x cfg + fst o) with (x + fst o + k * n_cells_x cfg) by lia.
  replace (y + l * n_cells_y cfg + snd o) with (y + snd o + l * n_cells_y cfg) by lia.
  rewrite !Z.mod_add by assumption. reflexivity.
Qed.

(** X6: [_count_neighbors] is periodic in both coordinates: an index moved
    by whole multiples of the grid dimensions, negative ones too, gives the
    same result, on every heap and for every configuration. *)
Theorem count_neighbors_periodic
        (cfg : GameConfig) (self : GameState) (x y k l : Z) (h : heap) :
  _count_neighbors cfg self (x + k * n_cells_x cfg) (y + l * n_cells_y cfg) h
  = _count_neighbors cfg self x y h.
Proof.
  unfold _count_neighbors, bind at 1 3.
  rewrite (mapM_ext _
    (fun o => let* ab := lift (neighbor_index cfg x y o) in
              ndarray_getitem (state self) (fst ab) (snd ab))).
  - reflexivity.
  - intros o s'. unfold bind, lift. rewrite neighbor_index_periodic. reflexivity.
Qed.

(** X7: on a torus of one cell the cell is its own eight neighbours: the
    count is eight times the cell, so an ALIVE cell dies of overpopulation
    and the grid is all DEAD after one call. *)
Theorem single_cell_torus
        (cfg : GameConfig) (h : heap) (self : GameState) (a : ndarray) :
  n_cells_x cfg = 1 -> n_cells_y cfg = 1 ->
  h !! state self = Some a -> fits cfg a -> binary a ->
  _count_neighbors cfg self 0 0 h = (Ok (8 * cell a 0 0), h) /\
  next_generation cfg self h = (Ok (mk_GameState (length h)), h ++ [dead_grid cfg]).
Proof.
  intros Hw Hh Hl Hfa Hbin.
  assert (Hx : 0 < n_cells_x cfg) by lia. assert (Hy : 0 < n_cells_y cfg) by lia.
  split.
  - rewrite (count_neighbors_run cfg Hx Hy h self a 0 0 Hl Hfa).
    destruct (neighbor_sum_binary cfg a 0 0 Hx Hy Hfa Hbin) as [-> _].
    unfold live_neighbors. rewrite Hw, Hh, !Z.mod_1_r. do 2 f_equal. lia.
  - rewrite (next_generation_run cfg Hx Hy h self a Hl Hfa). do 3 f_equal.
    rewrite (next_array_life cfg a Hx Hy Hfa Hbin). unfold dead_grid.
    apply tabulate_ext. intros x y Hxr Hyr. rewrite !Z2Nat.id in * by lia.
    assert (x = 0) by lia. assert (y = 0) by lia. subst x y.
    unfold life, moore_sum. rewrite Hw, Hh, !Z.mod_1_r.
    destruct (binary_cell a 0 0 (proj1 Hfa) Hbin) as [Hc | Hc];
      [destruct Hfa as (_ & H0 & H1); lia | destruct Hfa as (_ & H0 & H1); lia | |];
      rewrite Hc; reflexivity.
Qed.

Lemma single_cell_torus_witness :
  _count_neighbors (mk_GameConfig 20 20 1 1 20 20) (mk_GameState 0) 0 0
                   [mk_ndarray 1 1 [[1]]]
  = (Ok (8 * cell (mk_ndarray 1 1 [[1]]) 0 0), [mk_ndarray 1 1 [[1]]]) /\
  next_generation (mk_GameConfig 20 20 1 1 20 20) (mk_GameState 0)
                  [mk_ndarray 1 1 [[1]]]
  = (Ok (mk_GameState 1),
     [mk_ndarray 1 1 [[1]]] ++ [dead_grid (mk_GameConfig 20 20 1 1 20 20)]).
Proof.
  apply (single_cell_torus (mk_GameConfig 20 20 1 1 20 20) [mk_ndarray 1 1 [[1]]]
           (mk_GameState 0) (mk_ndarray 1 1 [[1]])).
  - reflexivity.
  - reflexivity.
  - reflexivity.
  - by_decide.
  - by_decide.
Defined.

Lemma for_each_empty_inner {S A B} (ys : list A) (body : A -> B -> M S unit) (s : S) :
  for_each ys (fun y => for_each [] (body y)) s = (Ok tt, s).
Proof. induction ys as [| y ys IH]; [reflexivity | exact IH]. Qed.

(** X8: with a configured dimension that is zero or negative the loops of
    [next_generation] have no pass: the call only copies the state array,
    whatever it is, and raises nothing; a direct call of [_count_neighbors]
    with a dimension that is zero raises [ZeroDivisionError] before any cell
    is read. *)
Theorem empty_grid_generation
        (cfg : GameConfig) (h : heap) (self : GameState) (a : ndarray) (x y : Z) :
  h !! state self = Some a ->
  (n_cells_x cfg <= 0 \/ n_cells_y cfg <= 0 ->
   next_generation cfg self h = (Ok (mk_GameState (length h)), h ++ [a])) /\
  (n_cells_x cfg = 0 \/ n_cells_y cfg = 0 ->
   _count_neighbors cfg self x y h = (Raise ZeroDivisionError, h)).
Proof.
  intros Hl. split.
  - intros Hdim. unfold next_generation, bind at 1.
    unfold np_copy, bind at 1. rewrite (load_run h _ a Hl).
    unfold alloc, bind at 1. unfold range.
    destruct Hdim as [Hx | Hy].
    + rewrite (seqZ_nil 0 (n_cells_x cfg)) by lia.
      rewrite for_each_empty_inner. reflexivity.
    + rewrite (seqZ_nil 0 (n_cells_y cfg)) by lia. reflexivity.
  - intros Hdim. unfold _count_neighbors, bind at 1. rewrite offsets_eq.
    cbn [mapM]. unfold bind at 1. unfold bind at 1. unfold lift.
    unfold neighbor_index, py_mod.
    destruct Hdim as [Hx | Hy].
    + rewrite Hx. reflexivity.
    + rewrite Hy. destruct (n_cells_x cfg =? 0); reflexivity.
Qed.

Lemma empty_grid_generation_witness :
  next_generation zero_width_config (mk_GameState 0) [mk_ndarray 0 30 []]
  = (Ok (mk_GameState 1), [mk_ndarray 0 30 []] ++ [mk_ndarray 0 30 []]) /\
  _count_neighbors zero_width_config (mk_GameState 0) 3 4 [mk_ndarray 0 30 []]
  = (Raise ZeroDivisionError, [mk_ndarray 0 30 []]).
Proof.
  destruct (empty_grid_generation zero_width_config [mk_ndarray 0 30 []]
              (mk_GameState 0) (mk_ndarray 0 30 []) 3 4) as [Hcopy Hcount].
  - reflexivity.
  - split.
    + apply Hcopy. left. simpl; lia.
    + apply Hcount. left. reflexivity.
Defined.


(** * The presentation shell *)

Lemma call_next_generation_run (cfg : GameConfig) (w : World) (g : nat)
      (self : GameState) (a : ndarray) :
  0 < n_cells_x cfg -> 0 < n_cells_y cfg ->
  game_states w !! g = Some self -> arrays w !! state self = Some a -> fits cfg a ->
  call_next_generation cfg g w =
  (Ok tt, mk_World (arrays w ++ [next_array cfg a])
                   (<[g := mk_GameState (length (arrays w))]> (game_states w))
                   (calls w)).
Proof.
  intros Hx Hy Hg Hl Hfa. unfold call_next_generation. rewrite Hg.
  rewrite (next_generation_run cfg Hx Hy (arrays w) self a Hl Hfa). reflexivity.
Qed.

Lemma is_click_spec (cfg : GameConfig) (x y : Z) :
  (button_x cfg <=? x) && (x <=? button_x cfg + button_width)
  && (button_y cfg <=? y) && (y <=? button_y cfg + button_height)
  = is_click cfg (MOUSEBUTTONDOWN (x, y)).
Proof.
  unfold is_click.
  destruct (Z.leb_spec (button_x cfg) x), (Z.leb_spec x (button_x cfg + button_width)),
    (Z.leb_spec (button_y cfg) y), (Z.leb_spec y (button_y cfg + button_height));
    simpl; symmetry;
    first [ apply bool_decide_eq_true_2; lia | apply bool_decide_eq_false_2; lia ].
Qed.

Lemma update_run (cfg : GameConfig) (g : nat) (event : Event) (w : World) :
  ButtonAction.update cfg (ButtonAction.mk (NextGenerationStrategy.mk g)) event w
  = if is_click cfg event then call_next_generation cfg g w else (Ok tt, w).
Proof.
  destruct event as [| [x y] | code]; try reflexivity.
  unfold ButtonAction.update. rewrite is_click_spec.
  destruct (is_click cfg (MOUSEBUTTONDOWN (x, y))); reflexivity.
Qed.

(** X9: the button listener advances the grid by exactly one generation
    when the event is a press of the mouse button at a position inside the
    rectangle [button_x <= x <= button_x + 200], [button_y <= y <= button_y
    + 50], the edges [x = button_x + 200] and [y = button_y + 50] included;
    a press anywhere else and every other event leave the store as it is. *)
Theorem button_click
        (cfg : GameConfig) (w : World) (g : nat) (self : GameState) (a : ndarray) :
  0 < n_cells_x cfg -> 0 < n_cells_y cfg ->
  game_states w !! g = Some self -> arrays w !! state self = Some a -> fits cfg a ->
  let listener := ButtonAction.mk (NextGenerationStrategy.mk g) in
  (forall x y,
     button_x cfg <= x <= button_x cfg + 200 ->
     button_y cfg <= y <= button_y cfg + 50 ->
     ButtonAction.update cfg listener (MOUSEBUTTONDOWN (x, y)) w =
     (Ok tt, mk_World (arrays w ++ [next_array cfg a])
                      (<[g := mk_GameState (length (arrays w))]> (game_states w))
                      (calls w))) /\
  (forall x y,
     ~ (button_x cfg <= x <= button_x cfg + 200 /\
        button_y cfg <= y <= button_y cfg + 50) ->
     ButtonAction.update cfg listener (MOUSEBUTTONDOWN (x, y)) w = (Ok tt, w)) /\
  ButtonAction.update cfg listener QUIT w = (Ok tt, w) /\
  (forall code, ButtonAction.update cfg listener (OtherEvent code) w = (Ok tt, w)).
Proof.
  intros Hx Hy Hg Hl Hfa listener. unfold listener.
  split; [|split; [|split]].
  - intros x y Hxr Hyr. rewrite update_run. unfold is_click.
    rewrite bool_decide_eq_true_2 by (unfold button_width, button_height; lia).
    exact (call_next_generation_run cfg w g self a Hx Hy Hg Hl Hfa).
  - intros x y Hout. rewrite update_run. unfold is_click.
    rewrite bool_decide_eq_false_2 by (unfold button_width, button_height; lia).
    reflexivity.
  - reflexivity.
  - reflexivity.
Qed.

Lemma button_click_witness :
  let w := mk_World [glider] [mk_GameState 0] [] in
  let listener := ButtonAction.mk (NextGenerationStrategy.mk 0) in
  (forall x y,
     button_x config <= x <= button_x config + 200 ->
     button_y config <= y <= button_y config + 50 ->
     ButtonAction.update config listener (MOUSEBUTTONDOWN (x, y)) w =
     (Ok tt, mk_World ([glider] ++ [next_array config glider])
                      (<[0%nat := mk_GameState 1]> [mk_GameState 0]) [])) /\
  (forall x y,
     ~ (button_x config <= x <= button_x config + 200 /\
        button_y config <= y <= button_y config + 50) ->
     ButtonAction.update config listener (MOUSEBUTTONDOWN (x, y)) w = (Ok tt, w)) /\
  ButtonAction.update config listener QUIT w = (Ok tt, w) /\
  (forall code, ButtonAction.update config listener (OtherEvent code) w = (Ok tt, w)).
Proof.
  apply (button_click config (mk_World [glider] [mk_GameState 0] []) 0
           (mk_GameState 0) glider).
  - simpl; lia.
  - simpl; lia.
  - reflexivity.
  - reflexivity.
  - by_decide.
Defined.

(** One call of [next_generation] on the object [g], in terms of the grid
    the object holds. *)
Lemma generation_step (cfg : GameConfig) (w : World) (g : nat) (a : ndarray) :
  0 < n_cells_x cfg -> 0 < n_cells_y cfg -> grid_of w g a -> fits cfg a ->
  exists w',
    call_next_generation cfg g w = (Ok tt, w') /\
    grid_of w' g (next_array cfg a) /\
    arrays w' = arrays w ++ [next_array cfg a] /\
    length (game_states w') = length (game_states w) /\
    calls w' = calls w.
Proof.
  intros Hx Hy (self & Hg & Hl) Hfa.
  eexists. split; [exact (call_next_generation_run cfg w g self a Hx Hy Hg Hl Hfa)|].
  cbn [arrays game_states calls]. split.
  - exists (mk_GameState (length (arrays w))). cbn [arrays game_states state]. split.
    + apply list_lookup_insert_eq. exact (lookup_lt_Some _ _ _ Hg).
    + apply lookup_snoc.
  - split; [reflexivity|]. split; [apply length_insert | reflexivity].
Qed.

(** The same listener, notified [k] times of one event. *)
Lemma listeners_run (cfg : GameConfig) (g : nat) (event : Event) (k : nat) :
  0 < n_cells_x cfg -> 0 < n_cells_y cfg ->
  forall (w : World) (a : ndarray),
    grid_of w g a -> fits cfg a ->
    let n := if is_click cfg event then k else 0%nat in
    exists w',
      for_each (replicate k (ButtonAction.mk (NextGenerationStrategy.mk g)))
               (fun listener => ButtonAction.update cfg listener event) w
      = (Ok tt, w') /\
      grid_of w' g (Nat.iter n (next_array cfg) a) /\
      fits cfg (Nat.iter n (next_array cfg) a) /\
      length (arrays w') = (length (arrays w) + n)%nat /\
      calls w' = calls w.
Proof.
  intros Hx Hy. induction k as [| k IH]; intros w a Hgrid Hfa n.
  - exists w. subst n. destruct (is_click cfg event); simpl;
      (split; [reflexivity|]); (split; [exact Hgrid|]);
      (split; [exact Hfa|]); split; (lia || reflexivity).
  - cbn [replicate for_each]. unfold bind. rewrite update_run. subst n.
    destruct (is_click cfg event) eqn:Hclick.
    + destruct (generation_step cfg w g a Hx Hy Hgrid Hfa)
        as (w1 & Hrun1 & Hgrid1 & Harr1 & _ & Hcalls1).
      rewrite Hrun1.
      destruct (IH w1 (next_array cfg a) Hgrid1 (fits_next_array cfg a Hfa))
        as (w' & Hrun & Hgrid' & Hf' & Hlen' & Hcalls').
      exists w'. split; [exact Hrun|]. rewrite Nat.iter_succ_r.
      split; [exact Hgrid'|]. split; [exact Hf'|]. split.
      * rewrite Hlen', Harr1, length_app. simpl. lia.
      * congruence.
    + destruct (IH w a Hgrid Hfa) as (w' & Hrun & Hrest).
      exists w'. split; [exact Hrun | exact Hrest].
Qed.

Lemma listeners_register (listener : ButtonAction.t) (k : nat) :
  EventManager.listeners
    (Nat.iter k (fun em => EventManager.register em listener) EventManager.new)
  = replicate k listener.
Proof.
  induction k as [| k IH]; [reflexivity|].
  rewrite replicate_S_end, <- IH. reflexivity.
Qed.

(** X10: [register] appends and never checks for a listener that is
    registered already, and [notify] runs every entry: after the button
    listener was registered [k] times, one click on the button advances the
    grid by [k] generations and allocates [k] arrays; an event that is not a
    click changes nothing.  Nothing is drawn by [notify]. *)
Theorem notify_runs_every_registration
        (cfg : GameConfig) (w : World) (g : nat) (a : ndarray) (k : nat)
        (event : Event) :
  0 < n_cells_x cfg -> 0 < n_cells_y cfg -> grid_of w g a -> fits cfg a ->
  let listener := ButtonAction.mk (NextGenerationStrategy.mk g) in
  let em := Nat.iter k (fun em => EventManager.register em listener)
                     EventManager.new in
  let n := if is_click cfg event then k else 0%nat in
  exists w',
    EventManager.notify cfg em event w = (Ok tt, w') /\
    grid_of w' g (Nat.iter n (next_array cfg) a) /\
    length (arrays w') = (length (arrays w) + n)%nat /\
    calls w' = calls w.
Proof.
  intros Hx Hy Hgrid Hfa listener em n.
  unfold EventManager.notify, em. rewrite listeners_register.
  destruct (listeners_run cfg g event k Hx Hy w a Hgrid Hfa)
    as (w' & Hrun & Hgrid' & _ & Hlen & Hcalls).
  exists w'. auto.
Qed.

Lemma notify_runs_every_registration_witness :
  let w := mk_World [glider] [mk_GameState 0] [] in
  let listener := ButtonAction.mk (NextGenerationStrategy.mk 0) in
  let em := Nat.iter 2 (fun em => EventManager.register em listener)
                     EventManager.new in
  exists w',
    EventManager.notify config em (MOUSEBUTTONDOWN (400, 590)) w = (Ok tt, w') /\
    grid_of w' 0 (Nat.iter 2 (next_array config) glider) /\
    length (arrays w') = (1 + 2)%nat /\
    calls w' = [].
Proof.
  apply (notify_runs_every_registration config
           (mk_World [glider] [mk_GameState 0] []) 0 glider 2
           (MOUSEBUTTONDOWN (400, 590))).
  - simpl; lia.
  - simpl; lia.
  - exists (mk_GameState 0). split; reflexivity.
  - by_decide.
Defined.

(** ** Drawing *)

Lemma world_eta (w : World) : mk_World (arrays w) (game_states w) (calls w) = w.
Proof. destruct w. reflexivity. Qed.

(** A loop whose passes only log calls logs them one pass after the other. *)
Lemma for_each_calls {A} (xs : list A) (body : A -> M World unit)
      (f : A -> list pygame_call) :
  forall w : World,
    (forall x w0, x ∈ xs -> arrays w0 = arrays w -> game_states w0 = game_states w ->
                  body x w0 =
                  (Ok tt, mk_World (arrays w0) (game_states w0) (calls w0 ++ f x))) ->
    for_each xs body w =
    (Ok tt, mk_World (arrays w) (game_states w) (calls w ++ (xs ≫= f))).
Proof.
  induction xs as [| x xs IH]; intros w Hbody.
  - simpl. unfold ret. rewrite app_nil_r, world_eta. reflexivity.
  - cbn [for_each]. unfold bind.
    rewrite (Hbody x w (list_elem_of_here _ _) eq_refl eq_refl).
    rewrite IH.
    + cbn [arrays game_states calls]. rewrite bind_cons, app_assoc. reflexivity.
    + intros x' w0 Hin Ha Hg. apply Hbody; [apply list_elem_of_further, Hin | |];
        assumption.
Qed.

Lemma bind_fmap_list {A B C} (f : A -> B) (g : B -> list C) (l : list A) :
  (f <$> l) ≫= g = l ≫= (fun x => g (f x)).
Proof.
  induction l as [| x l IH]; [reflexivity|].
  rewrite fmap_cons, !bind_cons, IH. reflexivity.
Qed.

Lemma length_bind_const {A B} (f : A -> list B) (l : list A) (n : nat) :
  (forall x, x ∈ l -> length (f x) = n) -> length (l ≫= f) = (length l * n)%nat.
Proof.
  induction l as [| x l IH]; intros Hf; [reflexivity|].
  rewrite bind_cons, length_app, IH, Hf.
  - simpl. lia.
  - apply list_elem_of_here.
  - intros x' Hx'. apply Hf, list_elem_of_further, Hx'.
Qed.

Lemma draw_cells_run (cfg : GameConfig) (ad : PygameAdapter.t) (l : loc)
      (a : ndarray) (cw ch : Z) (w : World) :
  arrays w !! l = Some a -> fits cfg a ->
  PygameAdapter.draw_cells cfg ad l cw ch w =
  (Ok tt, mk_World (arrays w) (game_states w)
                   (calls w ++ cell_rects cfg (PygameAdapter.screen ad) a cw ch)).
Proof.
  intros Hl (Hwf & H0 & H1). unfold PygameAdapter.draw_cells, cell_rects.
  apply for_each_calls. intros y w0 Hy Ha0 Hg0. apply elem_of_seqZ in Hy.
  apply for_each_calls. intros x w1 Hx Ha1 Hg1. apply elem_of_seqZ in Hx.
  unfold bind, on_arrays. rewrite (getitem_run (arrays w1) l a x y) by congruence.
  rewrite arr_get_cell by (try assumption; lia).
  destruct (cell a x y =? 1).
  - reflexivity.
  - unfold ret. rewrite app_nil_r. reflexivity.
Qed.

Lemma elem_of_cell_rects (cfg : GameConfig) (s : nat) (a : ndarray) (cw ch : Z)
      (c : pygame_call) :
  c ∈ cell_rects cfg s a cw ch <->
  exists x y,
    0 <= x < n_cells_x cfg /\ 0 <= y < n_cells_y cfg /\ cell a x y = 1 /\
    c = draw_rect s black (x * cw, y * ch, cw, ch) 0.
Proof.
  unfold cell_rects, range. rewrite list_elem_of_bind. split.
  - intros (y & Hc & Hy). apply list_elem_of_bind in Hc as (x & Hc & Hx).
    apply elem_of_seqZ in Hx, Hy.
    destruct (Z.eqb_spec (cell a x y) 1) as [Hcell | Hcell]; [|inversion Hc].
    apply list_elem_of_singleton in Hc. exists x, y. repeat split; (lia || assumption).
  - intros (x & y & Hx & Hy & Hcell & ->). exists y. split.
    + apply list_elem_of_bind. exists x. split.
      * rewrite Hcell. simpl. apply list_elem_of_here.
      * apply elem_of_seqZ. lia.
    + apply elem_of_seqZ. lia.
Qed.

Lemma NoDup_cell_rects (cfg : GameConfig) (s : nat) (a : ndarray) (cw ch : Z) :
  0 < cw -> 0 < ch -> NoDup (cell_rects cfg s a cw ch).
Proof.
  intros Hcw Hch. unfold cell_rects.
  apply NoDup_bind; [| |apply NoDup_seqZ].
  - intros y1 y2 c _ _ Hc1 Hc2.
    apply list_elem_of_bind in Hc1 as (x1 & Hc1 & _).
    apply list_elem_of_bind in Hc2 as (x2 & Hc2 & _).
    destruct (cell a x1 y1 =? 1); [|inversion Hc1].
    destruct (cell a x2 y2 =? 1); [|inversion Hc2].
    apply list_elem_of_singleton in Hc1, Hc2. subst c.
    injection Hc2 as _ Hy. nia.
  - intros y _. apply NoDup_bind; [| |apply NoDup_seqZ].
    + intros x1 x2 c _ _ Hc1 Hc2.
      destruct (cell a x1 y =? 1); [|inversion Hc1].
      destruct (cell a x2 y =? 1); [|inversion Hc2].
      apply list_elem_of_singleton in Hc1, Hc2. subst c.
      injection Hc2 as Hx. nia.
    + intros x _. destruct (cell a x y =? 1); [apply NoDup_singleton | apply NoDup_nil_2].
Qed.

(** X11: [draw_cells] paints the ALIVE cells and nothing else: it logs one
    filled black rectangle per cell of the grid that holds 1, at
    [(x * cell_width, y * cell_height)] with the size of a cell, no rectangle
    twice, and it changes no array and no [GameState] object. *)
Theorem draw_cells_paints_alive_cells
        (cfg : GameConfig) (ad : PygameAdapter.t) (l : loc) (a : ndarray)
        (cw ch : Z) (w : World) :
  arrays w !! l = Some a -> fits cfg a -> 0 < cw -> 0 < ch ->
  exists rects,
    PygameAdapter.draw_cells cfg ad l cw ch w =
    (Ok tt, mk_World (arrays w) (game_states w) (calls w ++ rects)) /\
    (forall c,
       c ∈ rects <->
       exists x y,
         0 <= x < n_cells_x cfg /\ 0 <= y < n_cells_y cfg /\ cell a x y = 1 /\
         c = draw_rect (PygameAdapter.screen ad) black (x * cw, y * ch, cw, ch) 0) /\
    NoDup rects.
Proof.
  intros Hl Hfa Hcw Hch.
  exists (cell_rects cfg (PygameAdapter.screen ad) a cw ch).
  split; [exact (draw_cells_run cfg ad l a cw ch w Hl Hfa)|].
  split; [intros c; apply elem_of_cell_rects | apply NoDup_cell_rects; assumption].
Qed.

Lemma draw_cells_paints_alive_cells_witness :
  exists rects,
    PygameAdapter.draw_cells config (PygameAdapter.mk display) 0 20 20
                             (mk_World [glider] [mk_GameState 0] []) =
    (Ok tt, mk_World [glider] [mk_GameState 0] ([] ++ rects)) /\
    (forall c,
       c ∈ rects <->
       exists x y,
         0 <= x < 40 /\ 0 <= y < 30 /\ cell glider x y = 1 /\
         c = draw_rect display black (x * 20, y * 20, 20, 20) 0) /\
    NoDup rects.
Proof.
  apply (draw_cells_paints_alive_cells config (PygameAdapter.mk display) 0 glider
           20 20 (mk_World [glider] [mk_GameState 0] [])).
  - reflexivity.
  - by_decide.
  - lia.
  - lia.
Defined.

Lemma py_range3_up (stop step : Z) :
  0 < step ->
  py_range3 0 stop step = Ok ((fun k => k * step) <$> seqZ 0 ((stop + step - 1) / step)).
Proof.
  intros Hstep. unfold py_range3.
  destruct (Z.eqb_spec step 0); [lia|]. destruct (Z.ltb_spec 0 step); [|lia].
  rewrite Z.sub_0_r. reflexivity.
Qed.

Lemma draw_grid_run (ad : PygameAdapter.t) (cw ch width height : Z) (w : World) :
  0 < cw -> 0 < ch ->
  PygameAdapter.draw_grid ad cw ch width height w =
  (Ok tt, mk_World (arrays w) (game_states w)
                   (calls w ++ grid_rects (PygameAdapter.screen ad) cw ch width height)).
Proof.
  intros Hcw Hch. unfold PygameAdapter.draw_grid, bind at 1, lift.
  rewrite (py_range3_up height ch Hch).
  rewrite (for_each_calls _ _
    (fun y => seqZ 0 ((width + cw - 1) / cw) ≫= fun i =>
                [draw_rect (PygameAdapter.screen ad) gray (i * cw, y, cw, ch) 1])).
  - unfold grid_rects. rewrite bind_fmap_list. reflexivity.
  - intros y w0 _ _ _. unfold bind, lift. rewrite (py_range3_up width cw Hcw).
    rewrite (for_each_calls _ _
      (fun x => [draw_rect (PygameAdapter.screen ad) gray (x, y, cw, ch) 1])).
    + rewrite bind_fmap_list. reflexivity.
    + intros x w1 _ _ _. reflexivity.
Qed.

Lemma ceil_div_lt (n step i : Z) :
  0 < step -> (i < (n + step - 1) / step <-> i * step < n).
Proof.
  intros Hstep.
  pose proof (Z.div_mod (n + step - 1) step ltac:(lia)) as Hdm.
  pose proof (Z.mod_pos_bound (n + step - 1) step Hstep) as Hmod.
  split; intros Hi; nia.
Qed.

Lemma elem_of_grid_rects (s : nat) (cw ch width height : Z) (c : pygame_call) :
  0 < cw -> 0 < ch ->
  (c ∈ grid_rects s cw ch width height <->
   exists i j,
     0 <= i /\ i * cw < width /\ 0 <= j /\ j * ch < height /\
     c = draw_rect s gray (i * cw, j * ch, cw, ch) 1).
Proof.
  intros Hcw Hch. unfold grid_rects. rewrite list_elem_of_bind. split.
  - intros (j & Hc & Hj). apply list_elem_of_bind in Hc as (i & Hc & Hi).
    apply elem_of_seqZ in Hi, Hj. apply list_elem_of_singleton in Hc.
    exists i, j. rewrite <- (ceil_div_lt width cw i Hcw), <- (ceil_div_lt height ch j Hch).
    repeat split; (lia || assumption).
  - intros (i & j & Hi0 & Hi & Hj0 & Hj & ->).
    apply (ceil_div_lt width cw i Hcw) in Hi. apply (ceil_div_lt height ch j Hch) in Hj.
    exists j. split.
    + apply list_elem_of_bind. exists i. split; [apply list_elem_of_here|].
      apply elem_of_seqZ. lia.
    + apply elem_of_seqZ. lia.
Qed.

Lemma NoDup_grid_rects (s : nat) (cw ch width height : Z) :
  0 < cw -> 0 < ch -> NoDup (grid_rects s cw ch width height).
Proof.
  intros Hcw Hch. unfold grid_rects.
  apply NoDup_bind; [| |apply NoDup_seqZ].
  - intros j1 j2 c _ _ Hc1 Hc2.
    apply list_elem_of_bind in Hc1 as (i1 & Hc1 & _).
    apply list_elem_of_bind in Hc2 as (i2 & Hc2 & _).
    apply list_elem_of_singleton in Hc1, Hc2. subst c.
    injection Hc2 as _ Hj. nia.
  - intros j _. apply NoDup_bind; [| |apply NoDup_seqZ].
    + intros i1 i2 c _ _ Hc1 Hc2.
      apply list_elem_of_singleton in Hc1, Hc2. subst c.
      injection Hc2 as Hi. nia.
    + intros i _. apply NoDup_singleton.
Qed.

Lemma length_grid_rects (s : nat) (cw ch width height : Z) :
  length (grid_rects s cw ch width height)
  = (Z.to_nat ((height + ch - 1) / ch) * Z.to_nat ((width + cw - 1) / cw))%nat.
Proof.
  unfold grid_rects.
  rewrite (length_bind_const _ _ (Z.to_nat ((width + cw - 1) / cw))).
  - rewrite length_seqZ. reflexivity.
  - intros j _. rewrite (length_bind_const _ _ 1%nat) by reflexivity.
    rewrite length_seqZ. lia.
Qed.

(** X12: with a positive cell size [draw_grid] outlines one rectangle per
    cell position that starts inside the window: the rectangles at
    [(i * cell_width, j * cell_height)] with [0 <= i * cell_width < width]
    and [0 <= j * cell_height < height], each one once, that is the width and
    the height divided by the cell size, both rounded up, many; it changes no
    array and no [GameState] object. *)
Theorem draw_grid_outlines_window
        (ad : PygameAdapter.t) (cw ch width height : Z) (w : World) :
  0 < cw -> 0 < ch ->
  exists rects,
    PygameAdapter.draw_grid ad cw ch width height w =
    (Ok tt, mk_World (arrays w) (game_states w) (calls w ++ rects)) /\
    (forall c,
       c ∈ rects <->
       exists i j,
         0 <= i /\ i * cw < width /\ 0 <= j /\ j * ch < height /\
         c = draw_rect (PygameAdapter.screen ad) gray (i * cw, j * ch, cw, ch) 1) /\
    NoDup rects /\
    length rects
    = (Z.to_nat ((height + ch - 1) / ch) * Z.to_nat ((width + cw - 1) / cw))%nat.
Proof.
  intros Hcw Hch. exists (grid_rects (PygameAdapter.screen ad) cw ch width height).
  split; [exact (draw_grid_run ad cw ch width height w Hcw Hch)|].
  split; [intros c; apply elem_of_grid_rects; assumption|].
  split; [apply NoDup_grid_rects; assumption | apply length_grid_rects].
Qed.

Lemma draw_grid_outlines_window_witness :
  exists rects,
    PygameAdapter.draw_grid (PygameAdapter.mk display) 20 20 810 600 world_init =
    (Ok tt, mk_World [] [] ([] ++ rects)) /\
    (forall c,
       c ∈ rects <->
       exists i j,
         0 <= i /\ i * 20 < 810 /\ 0 <= j /\ j * 20 < 600 /\
         c = draw_rect display gray (i * 20, j * 20, 20, 20) 1) /\
    NoDup rects /\
    length rects
    = (Z.to_nat ((600 + 20 - 1) / 20) * Z.to_nat ((810 + 20 - 1) / 20))%nat.
Proof.
  apply (draw_grid_outlines_window (PygameAdapter.mk display) 20 20 810 600 world_init).
  - lia.
  - lia.
Defined.

(** X13: a cell size of zero makes [draw_grid] raise [ValueError], from
    [range] with a step of zero, before anything is drawn: at once when the
    cell height is zero, and in the first row when the cell width is zero. *)
Theorem draw_grid_zero_cell_size
        (ad : PygameAdapter.t) (cw ch width height : Z) (w : World) :
  (ch = 0 ->
   PygameAdapter.draw_grid ad cw ch width height w = (Raise ValueError, w)) /\
  (cw = 0 -> 0 < ch -> 0 < height ->
   PygameAdapter.draw_grid ad cw ch width height w = (Raise ValueError, w)).
Proof.
  split.
  - intros ->. reflexivity.
  - intros -> Hch Hheight. unfold PygameAdapter.draw_grid, bind at 1, lift.
    rewrite (py_range3_up height ch Hch).
    assert (Hrows : 0 < (height + ch - 1) / ch).
    { apply Z.div_str_pos. lia. }
    rewrite (seqZ_cons 0 _ Hrows), fmap_cons. cbn [for_each].
    unfold bind at 1. unfold bind at 1. reflexivity.
Qed.

Lemma draw_grid_zero_cell_size_witness :
  PygameAdapter.draw_grid (PygameAdapter.mk display) (30 / 40) 20 30 600 world_init
  = (Raise ValueError, world_init).
Proof.
  destruct (draw_grid_zero_cell_size (PygameAdapter.mk display) (30 / 40) 20 30 600
              world_init) as [_ Hzero].
  apply Hzero.
  - reflexivity.
  - lia.
  - lia.
Defined.


Lemma get_state_run (w : World) (g : nat) (a : ndarray) :
  grid_of w g a ->
  exists l, get_state g w = (Ok l, w) /\ arrays w !! l = Some a.
Proof.
  intros (self & Hg & Hl). exists (state self). unfold get_state. rewrite Hg.
  split; [reflexivity | exact Hl].
Qed.

Lemma draw_component_cells_run (cfg : GameConfig) (ad : PygameAdapter.t) (g : nat)
      (a : ndarray) (w : World) :
  grid_of w g a -> fits cfg a ->
  draw_component cfg (Cells ad g) w =
  (Ok tt, mk_World (arrays w) (game_states w)
            (calls w ++ cell_rects cfg (PygameAdapter.screen ad) a
                          (cell_width cfg) (cell_height cfg))).
Proof.
  intros Hgrid Hfa. destruct (get_state_run w g a Hgrid) as (l & Hget & Hl).
  unfold draw_component, bind. rewrite Hget.
  exact (draw_cells_run cfg ad l a _ _ w Hl Hfa).
Qed.

(** X14: the cells are painted on the grid lines: when the cell size is
    the window size divided by the number of cells, as [GameConfig.__init__]
    computes it, every rectangle [Cells.draw] fills is one of the rectangles
    [Grid.draw] outlines; and when the divisions are exact the grid has as
    many rectangles as the model has cells. *)
Theorem cells_drawn_on_grid
        (cfg : GameConfig) (ad : PygameAdapter.t) (g : nat) (a : ndarray) (w : World) :
  0 < n_cells_x cfg -> 0 < n_cells_y cfg ->
  cell_width cfg = width cfg / n_cells_x cfg ->
  cell_height cfg = height cfg / n_cells_y cfg ->
  0 < cell_width cfg -> 0 < cell_height cfg ->
  grid_of w g a -> fits cfg a ->
  exists grid cells,
    draw_component cfg (Grid ad) w =
    (Ok tt, mk_World (arrays w) (game_states w) (calls w ++ grid)) /\
    draw_component cfg (Cells ad g) w =
    (Ok tt, mk_World (arrays w) (game_states w) (calls w ++ cells)) /\
    (forall rect,
       draw_rect (PygameAdapter.screen ad) black rect 0 ∈ cells ->
       draw_rect (PygameAdapter.screen ad) gray rect 1 ∈ grid) /\
    (width cfg = n_cells_x cfg * cell_width cfg ->
     height cfg = n_cells_y cfg * cell_height cfg ->
     Z.of_nat (length grid) = n_cells_x cfg * n_cells_y cfg).
Proof.
  intros Hx Hy Hcw Hch Hcw0 Hch0 Hgrid Hfa.
  exists (grid_rects (PygameAdapter.screen ad) (cell_width cfg) (cell_height cfg)
            (width cfg) (height cfg)),
    (cell_rects cfg (PygameAdapter.screen ad) a (cell_width cfg) (cell_height cfg)).
  split; [exact (draw_grid_run ad _ _ _ _ w Hcw0 Hch0)|].
  split; [exact (draw_component_cells_run cfg ad g a w Hgrid Hfa)|].
  split.
  - intros rect Hin. apply elem_of_cell_rects in Hin
      as (x & y & Hxr & Hyr & _ & Heq). injection Heq as ->.
    apply elem_of_grid_rects; [assumption | assumption |].
    exists x, y.
    pose proof (Z.mul_div_le (width cfg) (n_cells_x cfg) Hx).
    pose proof (Z.mul_div_le (height cfg) (n_cells_y cfg) Hy).
    repeat split; try lia; nia.
  - intros Hw Hh. rewrite length_grid_rects.
    replace ((height cfg + cell_height cfg - 1) / cell_height cfg) with (n_cells_y cfg).
    + replace ((width cfg + cell_width cfg - 1) / cell_width cfg) with (n_cells_x cfg).
      * lia.
      * apply (Z.div_unique _ _ _ (cell_width cfg - 1)); lia.
    + apply (Z.div_unique _ _ _ (cell_height cfg - 1)); lia.
Qed.

Lemma cells_drawn_on_grid_witness :
  exists grid cells,
    draw_component config (Grid (PygameAdapter.mk display))
                   (mk_World [glider] [mk_GameState 0] []) =
    (Ok tt, mk_World [glider] [mk_GameState 0] ([] ++ grid)) /\
    draw_component config (Cells (PygameAdapter.mk display) 0)
                   (mk_World [glider] [mk_GameState 0] []) =
    (Ok tt, mk_World [glider] [mk_GameState 0] ([] ++ cells)) /\
    (forall rect,
       draw_rect display black rect 0 ∈ cells ->
       draw_rect display gray rect 1 ∈ grid) /\
    (800 = 40 * 20 -> 600 = 30 * 20 -> Z.of_nat (length grid) = 40 * 30).
Proof.
  apply (cells_drawn_on_grid config (PygameAdapter.mk display) 0 glider
           (mk_World [glider] [mk_GameState 0] [])).
  - simpl; lia.
  - simpl; lia.
  - reflexivity.
  - reflexivity.
  - simpl; lia.
  - simpl; lia.
  - exists (mk_GameState 0). split; reflexivity.
  - by_decide.
Defined.

(** ** The composite *)

Lemma list_remove_absent {A} `{EqDecision A} (x : A) (l : list A) :
  x ∉ l -> list_remove x l = Raise ValueError.
Proof.
  induction l as [| y l IH]; intros Hx; [reflexivity|].
  apply not_elem_of_cons in Hx as [Hne Hx]. simpl.
  destruct (decide (y = x)); [congruence|]. rewrite IH by exact Hx. reflexivity.
Qed.

Lemma list_remove_first {A} `{EqDecision A} (x : A) (l1 l2 : list A) :
  x ∉ l1 -> list_remove x (l1 ++ x :: l2) = Ok (l1 ++ l2).
Proof.
  induction l1 as [| y l1 IH]; intros Hx; simpl.
  - destruct (decide (x = x)); [reflexivity | congruence].
  - apply not_elem_of_cons in Hx as [Hne Hx].
    destruct (decide (y = x)); [congruence|]. rewrite IH by exact Hx. reflexivity.
Qed.

(** X15: [CompositeGraphic.remove] removes the first child equal to the
    component and raises [ValueError] when there is none; so [add] followed
    by [remove] of the same component gives the children back when the
    component was not a child before, and otherwise removes the earlier
    occurrence and leaves the component at the end of the list. *)
Theorem composite_add_remove {A} `{EqDecision A}
        (self : CompositeGraphic.t A) (c : A) :
  (c ∉ CompositeGraphic.children self ->
   CompositeGraphic.remove self c = Raise ValueError /\
   CompositeGraphic.remove (CompositeGraphic.add self c) c = Ok self) /\
  (c ∈ CompositeGraphic.children self ->
   exists l1 l2,
     CompositeGraphic.children self = l1 ++ c :: l2 /\ (c ∉ l1) /\
     CompositeGraphic.remove self c = Ok (CompositeGraphic.mk (l1 ++ l2)) /\
     CompositeGraphic.remove (CompositeGraphic.add self c) c
     = Ok (CompositeGraphic.mk (l1 ++ l2 ++ [c]))).
Proof.
  destruct self as [l]. unfold CompositeGraphic.remove, CompositeGraphic.add.
  cbn [CompositeGraphic.children]. split.
  - intros Hout. rewrite (list_remove_absent c l Hout). split; [reflexivity|].
    rewrite <- (app_nil_r l) at 2.
    rewrite (list_remove_first c l [] Hout), app_nil_r. reflexivity.
  - intros Hin. apply list_elem_of_split_l in Hin as (l1 & l2 & -> & Hout).
    exists l1, l2. split; [reflexivity|]. split; [exact Hout|].
    rewrite (list_remove_first c l1 l2 Hout). split; [reflexivity|].
    rewrite <- app_assoc. cbn [app].
    rewrite (list_remove_first c l1 (l2 ++ [c]) Hout). reflexivity.
Qed.

Lemma composite_add_remove_witness :
  CompositeGraphic.remove
    (CompositeGraphic.add
       (CompositeGraphic.mk [Grid (PygameAdapter.mk display);
                             Button (PygameAdapter.mk display)])
       (Grid (PygameAdapter.mk display)))
    (Grid (PygameAdapter.mk display))
  = Ok (CompositeGraphic.mk [Button (PygameAdapter.mk display);
                             Grid (PygameAdapter.mk display)]).
Proof.
  destruct (composite_add_remove
              (CompositeGraphic.mk [Grid (PygameAdapter.mk display);
                                    Button (PygameAdapter.mk display)])
              (Grid (PygameAdapter.mk display))) as [_ Hin].
  destruct Hin as (l1 & l2 & Hsplit & Hout & _ & Hremove);
    [apply list_elem_of_here|].
  rewrite Hremove. destruct l1 as [| c l1].
  - injection Hsplit as <-. reflexivity.
  - injection Hsplit as <- _. exfalso. apply Hout, list_elem_of_here.
Defined.

(** ** The main loop *)

Lemma clicks_cons (cfg : GameConfig) (event : Event) (events : list Event) :
  clicks cfg (event :: events)
  = (clicks cfg events + if is_click cfg event then 1 else 0)%nat.
Proof.
  unfold clicks. rewrite filter_cons.
  destruct (is_click cfg event); case_decide; try congruence; simpl; lia.
Qed.

Lemma clicks_app (cfg : GameConfig) (events1 events2 : list Event) :
  clicks cfg (events1 ++ events2) = (clicks cfg events2 + clicks cfg events1)%nat.
Proof. unfold clicks. rewrite filter_app, length_app. lia. Qed.

(** The events of one frame, handled by the game. *)
Lemma handle_events_run (cfg : GameConfig) (scr g : nat) (events : list Event) :
  0 < n_cells_x cfg -> 0 < n_cells_y cfg ->
  forall (running : bool) (w : World) (a : ndarray),
    grid_of w g a -> fits cfg a ->
    exists w',
      Game.handle_events cfg (built_game scr g) events running w
      = (Ok (running && negb (bool_decide (QUIT ∈ events))), w') /\
      grid_of w' g (Nat.iter (clicks cfg events) (next_array cfg) a) /\
      fits cfg (Nat.iter (clicks cfg events) (next_array cfg) a) /\
      calls w' = calls w.
Proof.
  intros Hx Hy. induction events as [| event events IH]; intros running w a Hgrid Hfa.
  - exists w. simpl. unfold ret. rewrite andb_true_r. auto.
  - cbn [Game.handle_events]. unfold bind.
    destruct (listeners_run cfg g event 1 Hx Hy w a Hgrid Hfa)
      as (w1 & Hrun1 & Hgrid1 & Hf1 & _ & Hcalls1).
    change (EventManager.notify cfg (Game.event_manager (built_game scr g)) event w)
      with (for_each (replicate 1 (ButtonAction.mk (NextGenerationStrategy.mk g)))
              (fun listener => ButtonAction.update cfg listener event) w).
    rewrite Hrun1.
    destruct (IH (match event with QUIT => false | _ => running end) w1 _ Hgrid1 Hf1)
      as (w' & Hrun & Hgrid' & Hf' & Hcalls').
    exists w'. rewrite clicks_cons, Nat.iter_add.
    split; [|split; [exact Hgrid' | split; [exact Hf' | congruence]]].
    rewrite Hrun. do 2 f_equal.
    destruct event as [| p | code].
    + rewrite (bool_decide_eq_true_2 (QUIT ∈ QUIT :: events))
        by apply list_elem_of_here.
      simpl. rewrite andb_false_r. reflexivity.
    + f_equal. f_equal. apply bool_decide_ext. rewrite elem_of_cons.
      split; [intros Hin; right; exact Hin | intros [Heq | Hin]; [discriminate | exact Hin]].
    + f_equal. f_equal. apply bool_decide_ext. rewrite elem_of_cons.
      split; [intros Hin; right; exact Hin | intros [Heq | Hin]; [discriminate | exact Hin]].
Qed.

(** What one frame draws, before the rest [k] of the frame runs. *)
Lemma frame_draw_run {A} (cfg : GameConfig) (scr g : nat) (a : ndarray)
      (k : M World A) (w : World) :
  0 < cell_width cfg -> 0 < cell_height cfg -> grid_of w g a -> fits cfg a ->
  (let* _ := call (fill scr white) in
   let* _ := CompositeGraphic.draw (draw_component cfg)
               (Game.graphic (built_game scr g)) in
   let* _ := call display_flip in
   k) w
  = k (mk_World (arrays w) (game_states w) (calls w ++ frame_calls cfg scr a)).
Proof.
  intros Hcw Hch Hgrid Hfa. unfold bind at 1. unfold call at 1.
  set (w1 := mk_World (arrays w) (game_states w) (calls w ++ [fill scr white])).
  assert (Hgrid1 : grid_of w1 g a) by exact Hgrid.
  unfold bind at 1.
  change (CompositeGraphic.draw (draw_component cfg) (Game.graphic (built_game scr g)) w1)
    with (for_each [Grid (PygameAdapter.mk scr); Cells (PygameAdapter.mk scr) g;
                    Button (PygameAdapter.mk scr)] (draw_component cfg) w1).
  cbn [for_each]. unfold bind at 1.
  change (draw_component cfg (Grid (PygameAdapter.mk scr)) w1)
    with (PygameAdapter.draw_grid (PygameAdapter.mk scr) (cell_width cfg)
            (cell_height cfg) (width cfg) (height cfg) w1).
  rewrite (draw_grid_run _ _ _ _ _ w1 Hcw Hch).
  set (w2 := mk_World (arrays w1) (game_states w1) _).
  assert (Hgrid2 : grid_of w2 g a) by exact Hgrid.
  unfold bind at 1.
  rewrite (draw_component_cells_run cfg (PygameAdapter.mk scr) g a w2 Hgrid2 Hfa).
  unfold bind, draw_component, PygameAdapter.draw_button, call, ret.
  unfold bind. subst w2 w1. cbn [arrays game_states calls PygameAdapter.screen].
  unfold frame_calls, button_calls. do 2 f_equal.
  rewrite <- !app_assoc. reflexivity.
Qed.


Lemma quit_in_concat (events : list Event) (later : list (list Event)) :
  bool_decide (QUIT ∈ concat (events :: later))
  = bool_decide (QUIT ∈ events) || bool_decide (QUIT ∈ concat later).
Proof.
  cbn [concat]. destruct (decide (QUIT ∈ events)) as [Hin | Hout].
  - rewrite (bool_decide_eq_true_2 (QUIT ∈ events)) by exact Hin.
    rewrite (bool_decide_eq_true_2 (QUIT ∈ events ++ concat later))
      by (apply elem_of_app; left; exact Hin).
    reflexivity.
  - rewrite (bool_decide_eq_false_2 (QUIT ∈ events)) by exact Hout. simpl.
    apply bool_decide_ext. rewrite elem_of_app. tauto.
Qed.

(** The run of the built game on any frames: its result, its log and the
    grid it leaves. *)
Lemma run_film (cfg : GameConfig) (scr g : nat) (frames : list (list Event)) :
  0 < n_cells_x cfg -> 0 < n_cells_y cfg ->
  0 < cell_width cfg -> 0 < cell_height cfg ->
  forall (w : World) (a : ndarray),
    grid_of w g a -> fits cfg a ->
    exists w',
      Game.run cfg (built_game scr g) frames w
      = (Ok (bool_decide (QUIT ∈ concat frames)), w') /\
      calls w' = calls w ++ film cfg scr a frames /\
      grid_of w' g (Nat.iter (clicks cfg (played frames)) (next_array cfg) a).
Proof.
  intros Hx Hy Hcw Hch.
  induction frames as [| events later IH]; intros w a Hgrid Hfa.
  - exists w. simpl. rewrite app_nil_r. auto.
  - cbn [Game.run].
    change (Game.screen (built_game scr g)) with scr.
    rewrite (frame_draw_run cfg scr g a _ w Hcw Hch Hgrid Hfa).
    set (w1 := mk_World (arrays w) (game_states w) (calls w ++ frame_calls cfg scr a)).
    assert (Hgrid1 : grid_of w1 g a) by exact Hgrid.
    destruct (handle_events_run cfg scr g events Hx Hy true w1 a Hgrid1 Hfa)
      as (w2 & Hrun2 & Hgrid2 & Hf2 & Hcalls2).
    unfold bind at 1. rewrite Hrun2. rewrite quit_in_concat.
    cbn [andb film played].
    destruct (bool_decide (QUIT ∈ events)); cbn [negb orb].
    + eexists. unfold bind, call, ret. split; [reflexivity|].
      cbn [arrays game_states calls]. rewrite Hcalls2. subst w1.
      cbn [calls]. rewrite <- !app_assoc. split; [reflexivity|].
      rewrite app_nil_r. exact Hgrid2.
    + destruct (IH w2 _ Hgrid2 Hf2) as (w' & Hrun & Hcalls & Hgrid').
      exists w'. split; [exact Hrun|]. split.
      * rewrite Hcalls, Hcalls2. subst w1. cbn [calls].
        rewrite <- !app_assoc. reflexivity.
      * rewrite clicks_app, Nat.iter_add. exact Hgrid'.
Qed.

(** The frames after the one that holds [QUIT] are never asked for. *)
Lemma run_cut (cfg : GameConfig) (scr g : nat) (before : list (list Event))
      (final : list Event) (after : list (list Event)) :
  0 < n_cells_x cfg -> 0 < n_cells_y cfg ->
  0 < cell_width cfg -> 0 < cell_height cfg ->
  Forall (fun events => QUIT ∉ events) before -> QUIT ∈ final ->
  forall (w : World) (a : ndarray),
    grid_of w g a -> fits cfg a ->
    Game.run cfg (built_game scr g) (before ++ final :: after) w
    = Game.run cfg (built_game scr g) (before ++ [final]) w.
Proof.
  intros Hx Hy Hcw Hch Hbefore Hfinal.
  induction Hbefore as [| events before Hout _ IH]; intros w a Hgrid Hfa.
  - cbn [app Game.run]. change (Game.screen (built_game scr g)) with scr.
    rewrite !(frame_draw_run cfg scr g a _ w Hcw Hch Hgrid Hfa).
    set (w1 := mk_World _ _ _).
    assert (Hgrid1 : grid_of w1 g a) by exact Hgrid.
    destruct (handle_events_run cfg scr g final Hx Hy true w1 a Hgrid1 Hfa)
      as (w2 & Hrun2 & _).
    unfold bind at 1 3. rewrite Hrun2.
    rewrite (bool_decide_eq_true_2 _ Hfinal). reflexivity.
  - cbn [app Game.run]. change (Game.screen (built_game scr g)) with scr.
    rewrite !(frame_draw_run cfg scr g a _ w Hcw Hch Hgrid Hfa).
    set (w1 := mk_World _ _ _).
    assert (Hgrid1 : grid_of w1 g a) by exact Hgrid.
    destruct (handle_events_run cfg scr g events Hx Hy true w1 a Hgrid1 Hfa)
      as (w2 & Hrun2 & Hgrid2 & Hf2 & _).
    unfold bind at 1 3. rewrite Hrun2.
    rewrite (bool_decide_eq_false_2 _ Hout). cbn [andb negb].
    exact (IH w2 _ Hgrid2 Hf2).
Qed.

Lemma played_until_quit (before : list (list Event)) (final : list Event)
      (after : list (list Event)) :
  Forall (fun events => QUIT ∉ events) before -> QUIT ∈ final ->
  played (before ++ final :: after) = concat before ++ final /\
  QUIT ∈ concat (before ++ final :: after).
Proof.
  intros Hbefore Hfinal. split.
  - induction Hbefore as [| events before Hout _ IH]; cbn [app played concat].
    + rewrite (bool_decide_eq_true_2 _ Hfinal), app_nil_r. reflexivity.
    + rewrite (bool_decide_eq_false_2 _ Hout), IH, app_assoc. reflexivity.
  - rewrite concat_app. apply elem_of_app. right. cbn [concat].
    apply elem_of_app. left. exact Hfinal.
Qed.

Lemma film_ends_with_quit (cfg : GameConfig) (scr : nat) (before : list (list Event))
      (final : list Event) (after : list (list Event)) :
  Forall (fun events => QUIT ∉ events) before -> QUIT ∈ final ->
  forall a, exists shown,
    film cfg scr a (before ++ final :: after) = shown ++ [pygame_quit].
Proof.
  intros Hbefore Hfinal.
  induction Hbefore as [| events before Hout _ IH]; intros a; cbn [app film].
  - rewrite (bool_decide_eq_true_2 _ Hfinal). eexists. reflexivity.
  - rewrite (bool_decide_eq_false_2 _ Hout).
    destruct (IH (Nat.iter (clicks cfg events) (next_array cfg) a)) as (shown & ->).
    eexists. rewrite app_assoc. reflexivity.
Qed.

(** The store the builder leaves. *)
Lemma GameBuilder_new_run (cfg : GameConfig) (draw : Z -> Z -> nat) :
  0 <= n_cells_x cfg -> 0 <= n_cells_y cfg ->
  exists a0,
    GameState_init cfg draw [] = (Ok (mk_GameState 0), [a0]) /\
    fits cfg a0 /\ binary a0 /\
    GameBuilder.new cfg draw world_init =
    (Ok (GameBuilder.mk display 0 EventManager.new CompositeGraphic.new),
     mk_World [a0] [mk_GameState 0] [set_mode (width cfg, height cfg)]).
Proof.
  intros Hx Hy.
  destruct (GameState_init_run cfg draw [] Hx Hy) as (a0 & Hinit & Hf & Hb & _).
  exists a0. split; [exact Hinit|]. split; [exact Hf|]. split; [exact Hb|].
  unfold GameBuilder.new, bind at 1. unfold call at 1.
  unfold bind at 1. unfold new_GameState. cbn [arrays game_states calls world_init].
  rewrite Hinit. reflexivity.
Qed.

(** X16: the program runs until the first frame whose events hold [QUIT]:
    it then calls [pygame.quit()] and returns, every event of that frame has
    still been handled, the ones after [QUIT] too, and the frames after it are
    never asked for.  The grid it leaves is the grid [GameState.__init__]
    drew, advanced by one generation per click on the button among the events
    of the frames up to that one. *)
Theorem main_runs_until_quit
        (cfg : GameConfig) (draw : Z -> Z -> nat)
        (before : list (list Event)) (final : list Event)
        (after : list (list Event)) :
  0 < n_cells_x cfg -> 0 < n_cells_y cfg ->
  0 < cell_width cfg -> 0 < cell_height cfg ->
  Forall (fun events => QUIT ∉ events) before -> QUIT ∈ final ->
  exists a0 w' shown,
    GameState_init cfg draw [] = (Ok (mk_GameState 0), [a0]) /\
    main cfg draw (before ++ final :: after) world_init = (Ok true, w') /\
    main cfg draw (before ++ [final]) world_init = (Ok true, w') /\
    grid_of w' 0
      (Nat.iter (clicks cfg (concat before ++ final)) (next_array cfg) a0) /\
    calls w' = set_mode (width cfg, height cfg) :: shown ++ [pygame_quit].
Proof.
  intros Hx Hy Hcw Hch Hbefore Hfinal.
  destruct (GameBuilder_new_run cfg draw) as (a0 & Hinit & Hf0 & _ & Hnew);
    [lia | lia |].
  set (w0 := mk_World [a0] [mk_GameState 0] [set_mode (width cfg, height cfg)]) in *.
  assert (Hgrid0 : grid_of w0 0 a0) by (exists (mk_GameState 0); split; reflexivity).
  destruct (run_film cfg display 0 (before ++ final :: after) Hx Hy Hcw Hch
              w0 a0 Hgrid0 Hf0) as (w' & Hrun & Hcalls & Hgrid').
  destruct (played_until_quit before final after Hbefore Hfinal) as [Hplayed Hquit].
  rewrite Hplayed in Hgrid'. rewrite (bool_decide_eq_true_2 _ Hquit) in Hrun.
  destruct (film_ends_with_quit cfg display before final after Hbefore Hfinal a0)
    as (shown & Hfilm).
  assert (Hmain : forall frames,
             main cfg draw frames world_init
             = Game.run cfg (built_game display 0) frames w0).
  { intros frames. unfold main, bind. rewrite Hnew. reflexivity. }
  exists a0, w', shown. split; [exact Hinit|].
  split; [rewrite Hmain; exact Hrun|].
  split.
  - rewrite Hmain.
    rewrite <- (run_cut cfg display 0 before final after Hx Hy Hcw Hch
                  Hbefore Hfinal w0 a0 Hgrid0 Hf0).
    exact Hrun.
  - split; [exact Hgrid'|]. rewrite Hcalls, Hfilm. reflexivity.
Qed.

Lemma main_runs_until_quit_witness :
  exists a0 w' shown,
    GameState_init config (fun x y => Z.to_nat (x * y)) []
    = (Ok (mk_GameState 0), [a0]) /\
    main config (fun x y => Z.to_nat (x * y))
         ([[MOUSEBUTTONDOWN (400, 590)]; [OtherEvent 1024]]
          ++ [QUIT; MOUSEBUTTONDOWN (300, 540)] :: [[MOUSEBUTTONDOWN (400, 560)]])
         world_init = (Ok true, w') /\
    main config (fun x y => Z.to_nat (x * y))
         ([[MOUSEBUTTONDOWN (400, 590)]; [OtherEvent 1024]]
          ++ [[QUIT; MOUSEBUTTONDOWN (300, 540)]])
         world_init = (Ok true, w') /\
    grid_of w' 0
      (Nat.iter (clicks config
                   (concat [[MOUSEBUTTONDOWN (400, 590)]; [OtherEvent 1024]]
                    ++ [QUIT; MOUSEBUTTONDOWN (300, 540)]))
                (next_array config) a0) /\
    calls w' = set_mode (width config, height config) :: shown ++ [pygame_quit].
Proof.
  apply (main_runs_until_quit config (fun x y => Z.to_nat (x * y))
           [[MOUSEBUTTONDOWN (400, 590)]; [OtherEvent 1024]]
           [QUIT; MOUSEBUTTONDOWN (300, 540)] [[MOUSEBUTTONDOWN (400, 560)]]).
  - simpl; lia.
  - simpl; lia.
  - simpl; lia.
  - simpl; lia.
  - by_decide.
  - by_decide.
Defined.

(** X17: every frame of the program shows the grid as the clicks of the
    frames before it left it: after [set_mode], the log of the run is, frame
    after frame, the white fill, the grid lines, the ALIVE cells of the
    grid of that frame, the button and the flip; the clicks of a frame show
    from the next frame on.  The result tells whether a frame held [QUIT];
    when none does, every frame is drawn and the loop is still running. *)
Theorem main_shows_every_generation
        (cfg : GameConfig) (draw : Z -> Z -> nat) (frames : list (list Event)) :
  0 < n_cells_x cfg -> 0 < n_cells_y cfg ->
  0 < cell_width cfg -> 0 < cell_height cfg ->
  exists a0 w',
    GameState_init cfg draw [] = (Ok (mk_GameState 0), [a0]) /\
    main cfg draw frames world_init
    = (Ok (bool_decide (QUIT ∈ concat frames)), w') /\
    calls w' = set_mode (width cfg, height cfg) :: film cfg display a0 frames /\
    grid_of w' 0 (Nat.iter (clicks cfg (played frames)) (next_array cfg) a0).
Proof.
  intros Hx Hy Hcw Hch.
  destruct (GameBuilder_new_run cfg draw) as (a0 & Hinit & Hf0 & _ & Hnew);
    [lia | lia |].
  set (w0 := mk_World [a0] [mk_GameState 0] [set_mode (width cfg, height cfg)]) in *.
  assert (Hgrid0 : grid_of w0 0 a0) by (exists (mk_GameState 0); split; reflexivity).
  destruct (run_film cfg display 0 frames Hx Hy Hcw Hch w0 a0 Hgrid0 Hf0)
    as (w' & Hrun & Hcalls & Hgrid').
  exists a0, w'. split; [exact Hinit|]. split.
  - unfold main, bind. rewrite Hnew. exact Hrun.
  - split; [rewrite Hcalls; reflexivity | exact Hgrid'].
Qed.

Lemma main_shows_every_generation_witness :
  exists a0 w',
    GameState_init config (fun x y => Z.to_nat (x * y)) []
    = (Ok (mk_GameState 0), [a0]) /\
    main config (fun x y => Z.to_nat (x * y))
         [[MOUSEBUTTONDOWN (400, 590)]; []] world_init
    = (Ok (bool_decide (QUIT ∈ concat [[MOUSEBUTTONDOWN (400, 590)]; []])), w') /\
    calls w' = set_mode (width config, height config)
               :: film config display a0 [[MOUSEBUTTONDOWN (400, 590)]; []] /\
    grid_of w' 0
      (Nat.iter (clicks config (played [[MOUSEBUTTONDOWN (400, 590)]; []]))
                (next_array config) a0).
Proof.
  apply (main_shows_every_generation config (fun x y => Z.to_nat (x * y))
           [[MOUSEBUTTONDOWN (400, 590)]; []]).
  - simpl; lia.
  - simpl; lia.
  - simpl; lia.
  - simpl; lia.
Defined.

(** The builder after [k] calls of [build]. *)
Lemma builder_after_builds (scr g : nat) (k : nat) :
  Nat.iter k (fun b => snd (GameBuilder.build b))
           (GameBuilder.mk scr g EventManager.new CompositeGraphic.new)
  = GameBuilder.mk scr g
      (EventManager.mk (replicate k (ButtonAction.mk (NextGenerationStrategy.mk g))))
      (CompositeGraphic.mk
         (concat (replicate k [Grid (PygameAdapter.mk scr);
                               Cells (PygameAdapter.mk scr) g;
                               Button (PygameAdapter.mk scr)]))).
Proof.
  induction k as [| k IH]; [reflexivity|].
  rewrite Nat.iter_succ, IH. unfold GameBuilder.build.
  cbn [snd GameBuilder.screen GameBuilder.game_state GameBuilder.event_manager
       GameBuilder.graphic].
  unfold EventManager.register, CompositeGraphic.add.
  cbn [EventManager.listeners CompositeGraphic.children].
  rewrite !replicate_S_end, concat_app. cbn [concat].
  rewrite app_nil_r, <- !app_assoc. reflexivity.
Qed.

(** X18: [build] is not idempotent: every call registers the button
    listener again in the event manager of the builder and adds the three
    components again to its composite.  In the game that the call number
    [k + 1] returns, one click on the button advances the grid by [k + 1]
    generations, and the composite holds [k + 1] times the grid, the cells
    and the button. *)
Theorem build_registers_again
        (cfg : GameConfig) (scr g k : nat) (w : World) (a : ndarray) (event : Event) :
  0 < n_cells_x cfg -> 0 < n_cells_y cfg -> grid_of w g a -> fits cfg a ->
  let builder := Nat.iter k (fun b => snd (GameBuilder.build b))
                          (GameBuilder.mk scr g EventManager.new
                                          CompositeGraphic.new) in
  let game := fst (GameBuilder.build builder) in
  let n := if is_click cfg event then S k else 0%nat in
  length (EventManager.listeners (Game.event_manager game)) = S k /\
  CompositeGraphic.children (Game.graphic game)
  = concat (replicate (S k) [Grid (PygameAdapter.mk scr);
                             Cells (PygameAdapter.mk scr) g;
                             Button (PygameAdapter.mk scr)]) /\
  exists w',
    EventManager.notify cfg (Game.event_manager game) event w = (Ok tt, w') /\
    grid_of w' g (Nat.iter n (next_array cfg) a) /\
    calls w' = calls w.
Proof.
  intros Hx Hy Hgrid Hfa builder game n.
  assert (Hgame : game =
    Game.mk (CompositeGraphic.mk
               (concat (replicate (S k) [Grid (PygameAdapter.mk scr);
                                         Cells (PygameAdapter.mk scr) g;
                                         Button (PygameAdapter.mk scr)])))
            (EventManager.mk
               (replicate (S k) (ButtonAction.mk (NextGenerationStrategy.mk g))))
            scr).
  { unfold game, builder. rewrite builder_after_builds.
    unfold GameBuilder.build.
    cbn [fst GameBuilder.screen GameBuilder.game_state GameBuilder.event_manager
         GameBuilder.graphic].
    unfold EventManager.register, CompositeGraphic.add.
    cbn [EventManager.listeners CompositeGraphic.children].
    rewrite !replicate_S_end, concat_app. cbn [concat].
    rewrite app_nil_r, <- !app_assoc. reflexivity. }
  rewrite Hgame. cbn [Game.event_manager Game.graphic EventManager.listeners
                      CompositeGraphic.children].
  split; [apply length_replicate|]. split; [reflexivity|].
  destruct (listeners_run cfg g event (S k) Hx Hy w a Hgrid Hfa)
    as (w' & Hrun & Hgrid' & _ & _ & Hcalls).
  exists w'. split; [exact Hrun|]. split; [exact Hgrid' | exact Hcalls].
Qed.

Lemma build_registers_again_witness :
  let w := mk_World [glider] [mk_GameState 0] [] in
  let builder := Nat.iter 1 (fun b => snd (GameBuilder.build b))
                          (GameBuilder.mk display 0 EventManager.new
                                          CompositeGraphic.new) in
  let game := fst (GameBuilder.build builder) in
  length (EventManager.listeners (Game.event_manager game)) = 2%nat /\
  CompositeGraphic.children (Game.graphic game)
  = concat (replicate 2 [Grid (PygameAdapter.mk display);
                         Cells (PygameAdapter.mk display) 0;
                         Button (PygameAdapter.mk display)]) /\
  exists w',
    EventManager.notify config (Game.event_manager game)
                        (MOUSEBUTTONDOWN (300, 540)) w = (Ok tt, w') /\
    grid_of w' 0 (Nat.iter 2 (next_array config) glider) /\
    calls w' = [].
Proof.
  apply (build_registers_again config display 0 1
           (mk_World [glider] [mk_GameState 0] []) glider
           (MOUSEBUTTONDOWN (300, 540))).
  - simpl; lia.
  - simpl; lia.
  - exists (mk_GameState 0). split; reflexivity.
  - by_decide.
Defined.
